(** * mazda3bk-bt: steering-wheel button decoder for a CSR8645 Bluetooth module

    Shallow embedding of the two Arduino sketches of the repository

    - [V1]: [mazda3bk-bt.ino]   (MUTE/RESET, PREV, NEXT; 10-sample filter)
    - [V2]: the second sketch   (POWER_EN, PREV, NEXT; 5-sample filter,
                                 blocking delay after every latch)

    and the properties of the voltage filter and of the per-band
    debounce-and-latch logic.

    Modelling conventions
    - [float] values are rationals; every arithmetic operation of the sketch
      is followed by the rounding [fl] of IEEE-754 binary32 (round to nearest,
      ties to even).  The exponent range is not modelled: the sketch only
      handles voltages between 0 and 5 V.
    - [unsigned long] values are integers in [0, 2^32); subtraction wraps.
    - The globals of a sketch are the fields of [State], under their source
      names.  Two more fields describe the board: [clock], the time in
      milliseconds since power-on, read by [millis] and advanced by [delay];
      and [trace], the list of [digitalWrite] and [delay] calls made so far.
    - Code runs in zero time: the clock moves only in [delay] and between two
      observations.  In particular every [millis()] call inside one
      [checkCondition] call returns the same value.
    - The sample buffer is a list; a write outside it (undefined behaviour in
      the sketch) leaves it as it is.  It never happens: the write index
      stays inside the buffer ([reachable_filterOk]). *)

From Stdlib Require Import ZArith QArith Qround Qpower Bool List Lia.
From stdpp Require Import base list.
Import ListNotations.

Local Open Scope Z_scope.

(** ** The [float] type *)

Module Float.

Local Open Scope Q_scope.

(** Power of two with an integer exponent, as a rational. *)
Definition pow2 (e : Z) : Q := Qpower 2 e.

(** Exponent of a positive rational: the [e] with [2^e <= x < 2^(e+1)]. *)
Definition exponent (x : Q) : Z :=
  let d := (Z.log2 (Qnum x) - Z.log2 (Zpos (Qden x)))%Z in
  if Qle_bool (pow2 d) x then d else (d - 1)%Z.

(** Nearest integer, ties to even. *)
Definition nearest_even (y : Q) : Z :=
  let f := Qfloor y in
  match Qcompare (Qminus y (inject_Z f)) (1 # 2) with
  | Lt => f
  | Gt => (f + 1)%Z
  | Eq => if Z.even f then f else (f + 1)%Z
  end.

(** Significand width of binary32. *)
Definition prec : Z := 24.

(** Rounding to binary32. *)
Definition fl (x : Q) : Q :=
  match Qnum x with
  | Z0 => 0
  | Zpos _ =>
      let e := exponent x in
      Qred (inject_Z (nearest_even (x * pow2 (prec - 1 - e))) * pow2 (e - (prec - 1)))
  | Zneg _ =>
      let e := exponent (- x) in
      Qred (- (inject_Z (nearest_even (- x * pow2 (prec - 1 - e))) * pow2 (e - (prec - 1))))
  end.

Definition of_int (n : Z) : Q := fl (inject_Z n).
Definition add (x y : Q) : Q := fl (x + y).
Definition mul (x y : Q) : Q := fl (x * y).
Definition div (x y : Q) : Q := fl (x / y).

(** [x <= y] and [x >= y] on floats. *)
Definition le (x y : Q) : bool := Qle_bool x y.
Definition ge (x y : Q) : bool := Qle_bool y x.

End Float.

(** ** The board: pins, clock and the record of what the sketch did *)

Inductive Level := LOW | HIGH.

Inductive Event :=
| DigitalWrite (pin : Z) (level : Level)
| Delay (ms : Z).

(** The globals of a sketch (both sketches declare the same ones), the clock
    and the trace. *)
Record State := mkState {
  readings : list Q;
  readIndex : Z;
  filteredVoltage : Q;
  startTime1 : Z;
  startTime2 : Z;
  startTime3 : Z;
  condition1Active : bool;
  condition2Active : bool;
  condition3Active : bool;
  clock : Z;
  trace : list Event
}.

Definition set_readings (x : list Q) (s : State) : State :=
  mkState x (readIndex s) (filteredVoltage s) (startTime1 s) (startTime2 s)
    (startTime3 s) (condition1Active s) (condition2Active s)
    (condition3Active s) (clock s) (trace s).

Definition set_readIndex (x : Z) (s : State) : State :=
  mkState (readings s) x (filteredVoltage s) (startTime1 s) (startTime2 s)
    (startTime3 s) (condition1Active s) (condition2Active s)
    (condition3Active s) (clock s) (trace s).

Definition set_filteredVoltage (x : Q) (s : State) : State :=
  mkState (readings s) (readIndex s) x (startTime1 s) (startTime2 s)
    (startTime3 s) (condition1Active s) (condition2Active s)
    (condition3Active s) (clock s) (trace s).

Definition set_startTime1 (x : Z) (s : State) : State :=
  mkState (readings s) (readIndex s) (filteredVoltage s) x (startTime2 s)
    (startTime3 s) (condition1Active s) (condition2Active s)
    (condition3Active s) (clock s) (trace s).

Definition set_startTime2 (x : Z) (s : State) : State :=
  mkState (readings s) (readIndex s) (filteredVoltage s) (startTime1 s) x
    (startTime3 s) (condition1Active s) (condition2Active s)
    (condition3Active s) (clock s) (trace s).

Definition set_startTime3 (x : Z) (s : State) : State :=
  mkState (readings s) (readIndex s) (filteredVoltage s) (startTime1 s)
    (startTime2 s) x (condition1Active s) (condition2Active s)
    (condition3Active s) (clock s) (trace s).

Definition set_condition1Active (x : bool) (s : State) : State :=
  mkState (readings s) (readIndex s) (filteredVoltage s) (startTime1 s)
    (startTime2 s) (startTime3 s) x (condition2Active s)
    (condition3Active s) (clock s) (trace s).

Definition set_condition2Active (x : bool) (s : State) : State :=
  mkState (readings s) (readIndex s) (filteredVoltage s) (startTime1 s)
    (startTime2 s) (startTime3 s) (condition1Active s) x
    (condition3Active s) (clock s) (trace s).

Definition set_condition3Active (x : bool) (s : State) : State :=
  mkState (readings s) (readIndex s) (filteredVoltage s) (startTime1 s)
    (startTime2 s) (startTime3 s) (condition1Active s) (condition2Active s)
    x (clock s) (trace s).

Definition set_clock (x : Z) (s : State) : State :=
  mkState (readings s) (readIndex s) (filteredVoltage s) (startTime1 s)
    (startTime2 s) (startTime3 s) (condition1Active s) (condition2Active s)
    (condition3Active s) x (trace s).

Definition set_trace (x : list Event) (s : State) : State :=
  mkState (readings s) (readIndex s) (filteredVoltage s) (startTime1 s)
    (startTime2 s) (startTime3 s) (condition1Active s) (condition2Active s)
    (condition3Active s) (clock s) x.

(** *** Arduino core functions used by the sketches *)

(** Range of [unsigned long]. *)
Definition ULONG : Z := 2 ^ 32.

(** [millis()]: the clock, as an [unsigned long]. *)
Definition millis (s : State) : Z := clock s mod ULONG.

(** [a - b] on [unsigned long]. *)
Definition usub (a b : Z) : Z := (a - b) mod ULONG.

(** [delay(ms)]: blocks for [ms] milliseconds. *)
Definition delay (ms : Z) (s : State) : State :=
  set_trace (trace s ++ [Delay ms]) (set_clock (clock s + ms) s).

(** [digitalWrite(pin, level)]. *)
Definition digitalWrite (pin : Z) (level : Level) (s : State) : State :=
  set_trace (trace s ++ [DigitalWrite pin level]) s.

(** The state at power-on: every global holds its initialiser; an array of
    [n] floats with static storage holds zeros. *)
Definition powerOn (n : Z) : State :=
  mkState (replicate (Z.to_nat n) 0%Q) 0 0%Q 0 0 0 false false false 0 [].

(** Time that passes outside [delay] (conversion and execution time), seen
    from the sketch as a jump of the clock between two loop iterations. *)
Definition elapse (lag : Z) (s : State) : State := set_clock (clock s + lag) s.

(** An observation: the band logic is run at time [t] on the filtered
    voltage [v]. *)
Definition observe (t : Z) (v : Q) (s : State) : State :=
  set_filteredVoltage v (set_clock t s).

(** ** The voltage filter

    [readVoltage] has the same body in both sketches, up to the number of
    samples [n] ([numReadings], [NUM_READINGS]); [raw] is the value returned
    by [analogRead]. *)

(** [(float) (raw * 5.0) / 1024] *)
Definition toVolts (raw : Z) : Q :=
  Float.div (Float.mul (Float.of_int raw) (Float.fl 5)) (Float.of_int 1024).

(** [for (i = 0; i < n; i++) acc += readings[i];] on a buffer of [n]
    slots. *)
Definition sumReadings (l : list Q) (acc : Q) : Q :=
  fold_left Float.add l acc.

Definition readVoltage (n : Z) (raw : Z) (s : State) : State :=
  let s1 := set_readings (<[Z.to_nat (readIndex s) := toVolts raw]> (readings s)) s in
  let s2 := set_readIndex (Z.rem (readIndex s1 + 1) n) s1 in
  let s3 := set_filteredVoltage 0%Q s2 in
  let s4 := set_filteredVoltage (sumReadings (readings s3) (filteredVoltage s3)) s3 in
  set_filteredVoltage (Float.div (filteredVoltage s4) (Float.of_int n)) s4.

(** [v >= lo && v <= hi] *)
Definition inBand (lo hi v : Q) : bool := Float.ge v lo && Float.le v hi.

(** ** First sketch: [mazda3bk-bt.ino] *)

Module V1.

Definition VOLTAGE_LOW_1  : Q := Float.fl (370 # 100).
Definition VOLTAGE_HIGH_1 : Q := Float.fl (390 # 100).
Definition VOLTAGE_LOW_2  : Q := Float.fl (230 # 100).
Definition VOLTAGE_HIGH_2 : Q := Float.fl (250 # 100).
Definition VOLTAGE_LOW_3  : Q := Float.fl (150 # 100).
Definition VOLTAGE_HIGH_3 : Q := Float.fl (180 # 100).

Definition DURATION_THRESHOLD_1 : Z := 300.
Definition DURATION_THRESHOLD_2 : Z := 3000.
Definition INITIAL_DELAY        : Z := 3000.

Definition MUTE_PIN  : Z := 3.
Definition PREV_PIN  : Z := 4.
Definition NEXT_PIN  : Z := 5.
Definition RESET_PIN : Z := 6.

Definition numReadings : Z := 10.

(** [setup]: the buffer is cleared and the module is reset by a pulse on
    [RESET_PIN].  ([analogReference] and [pinMode] configure the board and
    change nothing of the state modelled here.) *)
Definition setup (s : State) : State :=
  let s1 := set_readings (replicate (Z.to_nat numReadings) 0%Q) s in
  let s2 := digitalWrite RESET_PIN HIGH s1 in
  let s3 := delay INITIAL_DELAY s2 in
  digitalWrite RESET_PIN LOW s3.

Definition readVoltage (raw : Z) (s : State) : State :=
  readVoltage numReadings raw s.

(** MUTE band. *)
Definition checkCondition1 (s : State) : State :=
  if inBand VOLTAGE_LOW_1 VOLTAGE_HIGH_1 (filteredVoltage s) then
    if negb (condition1Active s) then
      if startTime1 s =? 0 then
        set_startTime1 (millis s) s
      else if DURATION_THRESHOLD_1 <=? usub (millis s) (startTime1 s) then
        digitalWrite MUTE_PIN HIGH (set_condition1Active true s)
      else if DURATION_THRESHOLD_2 <=? usub (millis s) (startTime1 s) then
        digitalWrite RESET_PIN HIGH (set_condition1Active true s)
      else s
    else s
  else
    let s1 := if condition1Active s
              then digitalWrite RESET_PIN LOW (digitalWrite MUTE_PIN LOW s)
              else s in
    set_startTime1 0 (set_condition1Active false s1).

(** PREV band. *)
Definition checkCondition2 (s : State) : State :=
  if inBand VOLTAGE_LOW_2 VOLTAGE_HIGH_2 (filteredVoltage s) then
    if negb (condition2Active s) then
      if startTime2 s =? 0 then
        set_startTime2 (millis s) s
      else if DURATION_THRESHOLD_1 <=? usub (millis s) (startTime2 s) then
        digitalWrite PREV_PIN HIGH (set_condition2Active true s)
      else s
    else s
  else
    let s1 := if condition2Active s then digitalWrite PREV_PIN LOW s else s in
    set_startTime2 0 (set_condition2Active false s1).

(** NEXT band. *)
Definition checkCondition3 (s : State) : State :=
  if inBand VOLTAGE_LOW_3 VOLTAGE_HIGH_3 (filteredVoltage s) then
    if negb (condition3Active s) then
      if startTime3 s =? 0 then
        set_startTime3 (millis s) s
      else if DURATION_THRESHOLD_1 <=? usub (millis s) (startTime3 s) then
        digitalWrite NEXT_PIN HIGH (set_condition3Active true s)
      else s
    else s
  else
    let s1 := if condition3Active s then digitalWrite NEXT_PIN LOW s else s in
    set_startTime3 0 (set_condition3Active false s1).

(** One iteration of [loop]; [raw] is the sample returned by [analogRead]. *)
Definition loop (raw : Z) (s : State) : State :=
  delay 20
    (checkCondition3 (checkCondition2 (checkCondition1 (readVoltage raw s)))).

(** The state when [loop] is first entered. *)
Definition init : State := setup (powerOn numReadings).

End V1.

(** ** Second sketch *)

Module V2.

Definition NUM_READINGS : Z := 5.

Definition VOLTAGE_LOW_1  : Q := Float.fl (385 # 100).
Definition VOLTAGE_HIGH_1 : Q := Float.fl (405 # 100).
Definition VOLTAGE_LOW_2  : Q := Float.fl (252 # 100).
Definition VOLTAGE_HIGH_2 : Q := Float.fl (272 # 100).
Definition VOLTAGE_LOW_3  : Q := Float.fl (178 # 100).
Definition VOLTAGE_HIGH_3 : Q := Float.fl (198 # 100).

Definition DURATION_THRESHOLD_1 : Z := 3000.
Definition DURATION_THRESHOLD_2 : Z := 300.
Definition INITIAL_DELAY        : Z := 5000.

Definition START_STOP_PIN : Z := 5.
Definition PREV_PIN       : Z := 4.
Definition NEXT_PIN       : Z := 3.
Definition POWER_EN_PIN   : Z := 6.

(** [setup]: the buffer is cleared and the module is reset by a low pulse
    on [POWER_EN_PIN], which then stays high. *)
Definition setup (s : State) : State :=
  let s1 := set_readings (replicate (Z.to_nat NUM_READINGS) 0%Q) s in
  let s2 := digitalWrite POWER_EN_PIN LOW s1 in
  let s3 := delay INITIAL_DELAY s2 in
  digitalWrite POWER_EN_PIN HIGH s3.

Definition readVoltage (raw : Z) (s : State) : State :=
  readVoltage NUM_READINGS raw s.

(** MUTE band, switching [POWER_EN_PIN] (active low). *)
Definition checkCondition1 (s : State) : State :=
  if inBand VOLTAGE_LOW_1 VOLTAGE_HIGH_1 (filteredVoltage s) then
    if negb (condition1Active s) then
      if startTime1 s =? 0 then
        set_startTime1 (millis s) s
      else if DURATION_THRESHOLD_1 <=? usub (millis s) (startTime1 s) then
        delay DURATION_THRESHOLD_2
          (digitalWrite POWER_EN_PIN LOW (set_condition1Active true s))
      else s
    else s
  else
    let s1 := if condition1Active s then digitalWrite POWER_EN_PIN HIGH s else s in
    set_startTime1 0 (set_condition1Active false s1).

(** PREV band. *)
Definition checkCondition2 (s : State) : State :=
  if inBand VOLTAGE_LOW_2 VOLTAGE_HIGH_2 (filteredVoltage s) then
    if negb (condition2Active s) then
      if startTime2 s =? 0 then
        set_startTime2 (millis s) s
      else if DURATION_THRESHOLD_2 <=? usub (millis s) (startTime2 s) then
        delay DURATION_THRESHOLD_2
          (digitalWrite PREV_PIN HIGH (set_condition2Active true s))
      else s
    else s
  else
    let s1 := if condition2Active s then digitalWrite PREV_PIN LOW s else s in
    set_startTime2 0 (set_condition2Active false s1).

(** NEXT band. *)
Definition checkCondition3 (s : State) : State :=
  if inBand VOLTAGE_LOW_3 VOLTAGE_HIGH_3 (filteredVoltage s) then
    if negb (condition3Active s) then
      if startTime3 s =? 0 then
        set_startTime3 (millis s) s
      else if DURATION_THRESHOLD_2 <=? usub (millis s) (startTime3 s) then
        delay DURATION_THRESHOLD_2
          (digitalWrite NEXT_PIN HIGH (set_condition3Active true s))
      else s
    else s
  else
    let s1 := if condition3Active s then digitalWrite NEXT_PIN LOW s else s in
    set_startTime3 0 (set_condition3Active false s1).

(** One iteration of [loop]; [raw] is the sample returned by [analogRead]. *)
Definition loop (raw : Z) (s : State) : State :=
  delay 10
    (checkCondition3 (checkCondition2 (checkCondition1 (readVoltage raw s)))).

(** The state when [loop] is first entered. *)
Definition init : State := setup (powerOn NUM_READINGS).

End V2.

(** ** Running a sketch *)

(** What the environment supplies to one loop iteration: the time [lag]
    that passed outside [delay] since the previous iteration, and the
    sample [raw] returned by [analogRead]. *)
Record Input := mkInput { lag : Z; raw : Z }.

Definition run (loop : Z -> State -> State) (ins : list Input) (s : State) : State :=
  fold_left (fun s i => loop (raw i) (elapse (lag i) s)) ins s.

(** A band function run on a sequence of observations (time, filtered
    voltage). *)
Definition runBand (f : State -> State) (obs : list (Z * Q)) (s : State) : State :=
  fold_left (fun s o => f (observe (fst o) (snd o) s)) obs s.

(** The level of [pin] after the calls recorded in [tr]; [None] when the
    pin was never written. *)
Definition pinLevel (pin : Z) (tr : list Event) : option Level :=
  fold_left (fun cur e =>
               match e with
               | DigitalWrite p l => if p =? pin then Some l else cur
               | Delay _ => cur
               end) tr None.

(** ** The bands of the two sketches

    A [Band] names, for one [checkCondition] function, the globals it works
    on, its constants and the calls it makes when it latches and when it
    releases.  [outputs] lists the pins of the band with their active
    level. *)

Record Band := mkBand {
  step : State -> State;
  active : State -> bool;
  start : State -> Z;
  low : Q;
  high : Q;
  hold : Z;
  onLatch : list Event;
  onRelease : list Event;
  outputs : list (Z * Level)
}.

Definition V1_MUTE : Band :=
  mkBand V1.checkCondition1 condition1Active startTime1
    V1.VOLTAGE_LOW_1 V1.VOLTAGE_HIGH_1 V1.DURATION_THRESHOLD_1
    [DigitalWrite V1.MUTE_PIN HIGH]
    [DigitalWrite V1.MUTE_PIN LOW; DigitalWrite V1.RESET_PIN LOW]
    [(V1.MUTE_PIN, HIGH); (V1.RESET_PIN, HIGH)].

Definition V1_PREV : Band :=
  mkBand V1.checkCondition2 condition2Active startTime2
    V1.VOLTAGE_LOW_2 V1.VOLTAGE_HIGH_2 V1.DURATION_THRESHOLD_1
    [DigitalWrite V1.PREV_PIN HIGH]
    [DigitalWrite V1.PREV_PIN LOW]
    [(V1.PREV_PIN, HIGH)].

Definition V1_NEXT : Band :=
  mkBand V1.checkCondition3 condition3Active startTime3
    V1.VOLTAGE_LOW_3 V1.VOLTAGE_HIGH_3 V1.DURATION_THRESHOLD_1
    [DigitalWrite V1.NEXT_PIN HIGH]
    [DigitalWrite V1.NEXT_PIN LOW]
    [(V1.NEXT_PIN, HIGH)].

Definition V2_POWER : Band :=
  mkBand V2.checkCondition1 condition1Active startTime1
    V2.VOLTAGE_LOW_1 V2.VOLTAGE_HIGH_1 V2.DURATION_THRESHOLD_1
    [DigitalWrite V2.POWER_EN_PIN LOW; Delay V2.DURATION_THRESHOLD_2]
    [DigitalWrite V2.POWER_EN_PIN HIGH]
    [(V2.POWER_EN_PIN, LOW)].

Definition V2_PREV : Band :=
  mkBand V2.checkCondition2 condition2Active startTime2
    V2.VOLTAGE_LOW_2 V2.VOLTAGE_HIGH_2 V2.DURATION_THRESHOLD_2
    [DigitalWrite V2.PREV_PIN HIGH; Delay V2.DURATION_THRESHOLD_2]
    [DigitalWrite V2.PREV_PIN LOW]
    [(V2.PREV_PIN, HIGH)].

Definition V2_NEXT : Band :=
  mkBand V2.checkCondition3 condition3Active startTime3
    V2.VOLTAGE_LOW_3 V2.VOLTAGE_HIGH_3 V2.DURATION_THRESHOLD_2
    [DigitalWrite V2.NEXT_PIN HIGH; Delay V2.DURATION_THRESHOLD_2]
    [DigitalWrite V2.NEXT_PIN LOW]
    [(V2.NEXT_PIN, HIGH)].

(** Every band of the two sketches, and those with one hold threshold and
    one output. *)
Definition bands : list Band :=
  [V1_MUTE; V1_PREV; V1_NEXT; V2_POWER; V2_PREV; V2_NEXT].

Definition simpleBands : list Band :=
  [V1_PREV; V1_NEXT; V2_POWER; V2_PREV; V2_NEXT].

Definition inactive (l : Level) : Level :=
  match l with HIGH => LOW | LOW => HIGH end.

(** The filtered voltage [v] lies in the band. *)
Definition within (B : Band) (v : Q) : bool := inBand (low B) (high B) v.

(** The value [millis()] returns at time [t]. *)
Definition stamp (t : Z) : Z := t mod ULONG.

(** At time [t] the hold time of [B] has passed since the entry recorded
    at time [t0], by the sketch's own unsigned subtraction. *)
Definition held (B : Band) (t0 t : Z) : bool :=
  hold B <=? usub (stamp t) (stamp t0).

(** The three states of a band. *)
Definition Idle (B : Band) (s : State) : Prop :=
  active B s = false /\ start B s = 0.
Definition Pending (B : Band) (s : State) : Prop :=
  active B s = false /\ start B s <> 0.
Definition Latched (B : Band) (s : State) : Prop :=
  active B s = true.

(** What one call of a band function does to the band's globals and to the
    trace, read off the four branches of the source. *)
Definition nextActive (B : Band) (s : State) : bool :=
  if within B (filteredVoltage s) then
    active B s
    || (negb (start B s =? 0) && (hold B <=? usub (millis s) (start B s)))
  else false.

Definition nextStart (B : Band) (s : State) : Z :=
  if within B (filteredVoltage s) then
    if negb (active B s) && (start B s =? 0) then millis s else start B s
  else 0.

Definition emitted (B : Band) (s : State) : list Event :=
  if within B (filteredVoltage s) then
    if negb (active B s) && negb (start B s =? 0)
       && (hold B <=? usub (millis s) (start B s))
    then onLatch B else []
  else if active B s then onRelease B else [].

Record BandOk (B : Band) : Prop := {
  ok_active : forall s, active B (step B s) = nextActive B s;
  ok_start : forall s, start B (step B s) = nextStart B s;
  ok_trace : forall s, trace (step B s) = trace s ++ emitted B s;
  ok_observe_active : forall t v s, active B (observe t v s) = active B s;
  ok_observe_start : forall t v s, start B (observe t v s) = start B s
}.

(** The bands of the second sketch. *)
Definition delayedBands : list Band := [V2_POWER; V2_PREV; V2_NEXT].

(** A band that is latched has a recorded entry time. *)
Definition entryRecorded (s : State) : Prop :=
  (condition1Active s = true -> startTime1 s <> 0)
  /\ (condition2Active s = true -> startTime2 s <> 0)
  /\ (condition3Active s = true -> startTime3 s <> 0).

(** Evenly spaced observations of one voltage: [n] ticks starting at [t0],
    [period] milliseconds apart. *)
Definition ticks (t0 period : Z) (n : nat) (v : Q) : list (Z * Q) :=
  List.map (fun i => (t0 + period * Z.of_nat i, v)) (seq 0 n).

(** ** Filter: auxiliary definitions *)

(** Modelled from the spec: [ADC_MAX], the largest count the converter
    returns (section 4.1: [rawReading] is an integer in [0, ADC_MAX]).  The
    Arduino core, which defines [analogRead], is not part of the repository;
    on the boards the sketches are written for the converter has 10 bits and
    [analogRead] returns 0 .. 1023. *)
Definition ADC_MAX : Z := 1023.

(** The buffer has [n] slots and the write index points at one of them. *)
Definition filterOk (n : Z) (s : State) : Prop :=
  0 <= readIndex s < n /\ length (readings s) = Z.to_nat n.

(** The part of the state the filter works on. *)
Definition filterOf (s : State) : list Q * Z * Q :=
  (readings s, readIndex s, filteredVoltage s).

(** [k] calls of [readVoltage] on the same sample. *)
Fixpoint feed (n : Z) (sample : Z) (k : nat) (s : State) : State :=
  match k with
  | O => s
  | S k' => readVoltage n sample (feed n sample k' s)
  end.

(** Exact sum of a list of rationals. *)
Definition qsum (l : list Q) : Q := fold_right Qplus 0%Q l.

(** [x] is the voltage of some sample. *)
Definition isSample (x : Q) : Prop :=
  exists c : Z, 0 <= c <= ADC_MAX /\ (x == inject_Z c * 5 / 1024)%Q.

(** The effect of one [readVoltage] call on the buffer: the slot at the
    old write index holds the new voltage, every other slot is as before,
    and the write index has moved on by one, modulo [n]. *)
Definition oneSlot (n sample : Z) (s s' : State) : Prop :=
  readings s' !! Z.to_nat (readIndex s) = Some (toVolts sample)
  /\ (forall j : nat, j <> Z.to_nat (readIndex s) ->
                      readings s' !! j = readings s !! j)
  /\ length (readings s') = length (readings s)
  /\ readIndex s' = (readIndex s + 1) mod n
  /\ 0 <= readIndex s' < n.

(** ** The sketches as a whole *)

(** What tells the two sketches apart as programs: [loop], the state
    [setup] leaves, the size of the sample buffer, the bands in the order
    [loop] calls their functions, and the pause at the end of [loop]. *)
Record Sketch := mkSketch {
  loopOf : Z -> State -> State;
  initOf : State;
  bufferSize : Z;
  order : list Band;
  pause : Z
}.

Definition sketch1 : Sketch :=
  mkSketch V1.loop V1.init V1.numReadings [V1_MUTE; V1_PREV; V1_NEXT] 20.

Definition sketch2 : Sketch :=
  mkSketch V2.loop V2.init V2.NUM_READINGS [V2_POWER; V2_PREV; V2_NEXT] 10.

Definition sketches : list Sketch := [sketch1; sketch2].

(** The state in which the band function number [k] (from 0) of an iteration
    of [loop] is called: the sample has been read and the band functions
    before it have run. *)
Definition beforeBand (K : Sketch) (k : nat) (sample : Z) (s : State) : State :=
  fold_left (fun x B => step B x) (take k (order K))
    (readVoltage (bufferSize K) sample s).

(** One iteration of [loop], band by band. *)
Definition iteration (K : Sketch) (sample : Z) (s : State) : State :=
  delay (pause K) (beforeBand K (length (order K)) sample s).

(** What band number [k] observes along a run: the clock and the filtered
    voltage at each of its calls. *)
Fixpoint observations (K : Sketch) (k : nat) (ins : list Input) (s : State)
  : list (Z * Q) :=
  match ins with
  | [] => []
  | i :: rest =>
      let b := beforeBand K k (raw i) (elapse (lag i) s) in
      (clock b, filteredVoltage b)
        :: observations K k rest (loopOf K (raw i) (elapse (lag i) s))
  end.

(** The call [e] writes [pin]. *)
Definition writes (pin : Z) (e : Event) : bool :=
  match e with
  | DigitalWrite p _ => p =? pin
  | Delay _ => false
  end.

(** The band function of [B'] leaves the flag and the timer of [B] alone
    and writes none of the pins of [B]. *)
Definition Foreign (B B' : Band) : Prop :=
  (forall x, active B (step B' x) = active B x /\ start B (step B' x) = start B x)
  /\ (forall e p, In e (onLatch B' ++ onRelease B') ->
                  In p (List.map fst (outputs B)) -> writes p e = false).

(** Two states agree on what belongs to band [B]: its flag, its timer and
    the levels of its pins. *)
Definition sameBand (B : Band) (s s' : State) : Prop :=
  active B s = active B s' /\ start B s = start B s'
  /\ forall p, In p (List.map fst (outputs B)) ->
               pinLevel p (trace s) = pinLevel p (trace s').

(** The buffer, oldest sample first: the slot at the write index is the
    next to be overwritten. *)
Definition chronological (s : State) : list Q :=
  drop (Z.to_nat (readIndex s)) (readings s)
  ++ take (Z.to_nat (readIndex s)) (readings s).

(** The voltages of the samples of a run, in order. *)
Definition voltages (ins : list Input) : list Q :=
  List.map (fun i => toVolts (raw i)) ins.

(** The [delay] calls among a list of calls, in order. *)
Definition delays (evs : list Event) : list Z :=
  flat_map (fun e => match e with
                     | Delay ms => [ms]
                     | DigitalWrite _ _ => []
                     end) evs.

(** The flag of band [B] is clear in [s] and set in [s']: the band latches
    between the two states. *)
Definition latchesIn (B : Band) (s s' : State) : bool :=
  negb (active B s) && active B s'.

(** The timer of a pending band holds the stamp of a time [ts] not after
    the present and less than the hold time plus [slack] ms before it. *)
Definition entryTimed (B : Band) (slack : Z) (s : State) : Prop :=
  active B s = false -> start B s <> 0 ->
  exists ts, start B s = stamp ts /\ 0 <= clock s - ts < hold B + slack.

(** The band is latched, or pending since a time [ts] not after [d]. *)
Definition armed (B : Band) (d : Z) (s : State) : Prop :=
  active B s = true
  \/ (active B s = false
      /\ exists ts, start B s = stamp ts /\ stamp ts <> 0 /\ ts <= d
                    /\ 0 <= clock s - ts < hold B + 1000).

(** Along the run [ins] from [s], the filtered voltage is in the band of
    [B] at the end of every iteration. *)
Definition staysWithin (K : Sketch) (B : Band) (ins : list Input) (s : State)
  : Prop :=
  forall p i q, ins = p ++ i :: q ->
    within B (filteredVoltage (run (loopOf K) (p ++ [i]) s)) = true.

(** ** Band logic: the functions meet their description *)

Ltac band_unfold :=
  unfold nextActive, nextStart, emitted, within, step, active, start, low,
    high, hold, onLatch, onRelease,
    V1_MUTE, V1_PREV, V1_NEXT, V2_POWER, V2_PREV, V2_NEXT,
    V1.checkCondition1, V1.checkCondition2, V1.checkCondition3,
    V2.checkCondition1, V2.checkCondition2, V2.checkCondition3,
    observe, delay, digitalWrite.

Ltac band_cases s :=
  destruct (inBand _ _ (filteredVoltage s)) eqn:?;
  try destruct (condition1Active s) eqn:?;
  try destruct (condition2Active s) eqn:?;
  try destruct (condition3Active s) eqn:?;
  try destruct (Z.eqb_spec (startTime1 s) 0);
  try destruct (Z.eqb_spec (startTime2 s) 0);
  try destruct (Z.eqb_spec (startTime3 s) 0);
  repeat match goal with
         | |- context [?a <=? ?b] => destruct (Z.leb_spec a b)
         end;
  cbn; rewrite <- ?app_assoc, ?app_nil_r;
  try reflexivity; try congruence.

Ltac entry_cases s :=
  unfold entryRecorded; intros (H1 & H2 & H3); band_unfold;
  repeat match goal with
         | |- context [if ?c then _ else _] => destruct c eqn:?
         end;
  rewrite ?negb_true_iff, ?negb_false_iff, ?Z.eqb_eq, ?Z.eqb_neq in *;
  cbn; repeat split; intros; auto; congruence.

Lemma V1_MUTE_ok : BandOk V1_MUTE.
Proof.
  split; intros; band_unfold; try reflexivity; band_cases s.
  all: unfold V1.DURATION_THRESHOLD_1, V1.DURATION_THRESHOLD_2 in *; lia.
Qed.

Lemma V1_PREV_ok : BandOk V1_PREV.
Proof. split; intros; band_unfold; try reflexivity; band_cases s. Qed.

Lemma V1_NEXT_ok : BandOk V1_NEXT.
Proof. split; intros; band_unfold; try reflexivity; band_cases s. Qed.

Lemma V2_POWER_ok : BandOk V2_POWER.
Proof. split; intros; band_unfold; try reflexivity; band_cases s. Qed.

Lemma V2_PREV_ok : BandOk V2_PREV.
Proof. split; intros; band_unfold; try reflexivity; band_cases s. Qed.

Lemma V2_NEXT_ok : BandOk V2_NEXT.
Proof. split; intros; band_unfold; try reflexivity; band_cases s. Qed.

Lemma bands_ok B : In B bands -> BandOk B.
Proof.
  cbn; intros [<-|[<-|[<-|[<-|[<-|[<-|[]]]]]]];
    auto using V1_MUTE_ok, V1_PREV_ok, V1_NEXT_ok, V2_POWER_ok, V2_PREV_ok, V2_NEXT_ok.
Qed.


(** ** Floats: numbers with a 24-bit significand are not rounded *)

Section FloatFacts.

Local Open Scope Q_scope.
Import Float.

Lemma pow2_pos e : 0 < pow2 e.
Proof. apply Qpower_0_lt. reflexivity. Qed.

Lemma pow2_add a b : pow2 (a + b) == pow2 a * pow2 b.
Proof. apply Qpower_plus. discriminate. Qed.

Lemma pow2_inject e : (0 <= e)%Z -> pow2 e == inject_Z (2 ^ e).
Proof. intros H. unfold pow2. now rewrite Zpower_Qpower. Qed.

Lemma exponent_le x : 0 < x -> pow2 (exponent x) <= x.
Proof.
  intros Hx. unfold exponent.
  destruct (Qle_bool _ x) eqn:E; [now apply Qle_bool_iff|].
  destruct x as [p q]. cbn [Qnum Qden].
  assert (Hp : (0 < p)%Z) by (unfold Qlt in Hx; cbn in Hx; lia).
  pose proof (Z.log2_spec p Hp) as [Hlp _].
  pose proof (Z.log2_spec (Zpos q) eq_refl) as [_ Hlq].
  pose proof (Z.log2_nonneg p). pose proof (Z.log2_nonneg (Zpos q)).
  replace (Z.log2 p - Z.log2 (Zpos q) - 1)%Z
    with (Z.log2 p + - (Z.succ (Z.log2 (Zpos q))))%Z by lia.
  rewrite pow2_add. unfold pow2 at 2. rewrite Qpower_opp.
  fold (pow2 (Z.succ (Z.log2 (Z.pos q)))).
  rewrite !pow2_inject by lia.
  apply Qle_shift_div_r.
  - change 0 with (inject_Z 0). rewrite <- Zlt_Qlt. lia.
  - unfold Qle. cbn [Qnum Qden Qmult inject_Z]. nia.
Qed.

Lemma nearest_even_inject y n : y == inject_Z n -> nearest_even y = n.
Proof.
  intros Hy. unfold nearest_even.
  assert (Hf : Qfloor y = n) by (rewrite <- (Qfloor_Z n); now apply Qfloor_comp).
  rewrite Hf. cbv zeta.
  assert (H0 : Qminus y (inject_Z n) == 0) by (rewrite Hy; ring).
  assert (Hlt : Qminus y (inject_Z n) < 1 # 2) by (rewrite H0; reflexivity).
  assert (Hc : Qcompare (Qminus y (inject_Z n)) (1 # 2) = Lt)
    by (apply Qlt_alt; exact Hlt).
  now rewrite Hc.
Qed.

(** A non-negative number [m * 2^j] with [m < 2^24] is a float. *)
Lemma fl_exact x m j :
  (0 <= m < 2 ^ prec)%Z -> x == inject_Z m * pow2 j -> fl x == x.
Proof.
  intros Hm Hx.
  destruct (Z.eq_dec m 0%Z) as [->|Hm0].
  { assert (H0 : x == 0) by (rewrite Hx; ring).
    destruct x as [[|p|p] q]; try discriminate H0. reflexivity. }
  assert (Hpos : 0 < x).
  { rewrite Hx. apply Qmult_lt_0_compat; [|apply pow2_pos].
    change 0 with (inject_Z 0). rewrite <- Zlt_Qlt. lia. }
  unfold fl. destruct (Qnum x) as [|p|p] eqn:Ep.
  1,3: destruct x as [n d]; cbn in Ep; subst n; discriminate Hpos.
  cbv zeta. set (e := exponent x).
  assert (He : (e < prec + j)%Z).
  { apply (Qpower_lt_compat_l_inv 2); [|reflexivity].
    fold (pow2 e) (pow2 (prec + j)).
    apply Qle_lt_trans with x; [now apply exponent_le|].
    rewrite Hx, pow2_add. apply Qmult_lt_compat_r; [apply pow2_pos|].
    rewrite pow2_inject by (unfold prec; lia). rewrite <- Zlt_Qlt. lia. }
  assert (Hy : x * pow2 (prec - 1 - e) == inject_Z (m * 2 ^ (prec - 1 - e + j))).
  { rewrite Hx, inject_Z_mult, <- pow2_inject by lia.
    rewrite (pow2_add (prec - 1 - e) j). ring. }
  rewrite (nearest_even_inject _ _ Hy).
  rewrite Qred_correct, <- Hy, <- Qmult_assoc, <- pow2_add.
  replace (prec - 1 - e + (e - (prec - 1)))%Z with 0%Z by lia.
  change (pow2 0) with 1. ring.
Qed.

End FloatFacts.

(** ** Filter: the arithmetic of [readVoltage] is exact *)

Section FilterFacts.

Local Open Scope Q_scope.
Import Float.

Lemma of_int_exact m : (0 <= m < 2 ^ prec)%Z -> of_int m == inject_Z m.
Proof.
  intros Hm. unfold of_int. apply (fl_exact _ m 0 Hm).
  change (pow2 0) with 1. ring.
Qed.

Lemma toVolts_exact sample :
  (0 <= sample <= ADC_MAX)%Z -> toVolts sample == inject_Z sample * 5 / 1024.
Proof.
  unfold ADC_MAX. intros Hs. unfold toVolts, div, mul.
  assert (H1 : of_int sample == inject_Z sample)
    by (apply of_int_exact; unfold prec; lia).
  assert (H5 : fl 5 == 5) by reflexivity.
  assert (H1024 : of_int 1024 == 1024) by reflexivity.
  assert (H2 : fl (of_int sample * fl 5) == inject_Z sample * 5).
  { rewrite (fl_exact _ (sample * 5) 0).
    - now rewrite H1, H5.
    - unfold prec. lia.
    - rewrite H1, H5, inject_Z_mult. change (pow2 0) with 1. ring. }
  rewrite (fl_exact _ (sample * 5) (-10)).
  - now rewrite H2, H1024.
  - unfold prec. lia.
  - rewrite H2, H1024, inject_Z_mult. change (pow2 (-10)) with (1 # 1024).
    field.
Qed.

Lemma toVolts_isSample sample :
  (0 <= sample <= ADC_MAX)%Z -> isSample (toVolts sample).
Proof. intros Hs. exists sample. split; [exact Hs|now apply toVolts_exact]. Qed.

Lemma zero_isSample : isSample 0.
Proof. exists 0%Z. split; [unfold ADC_MAX; lia|reflexivity]. Qed.

(** Summing up to ten samples never rounds. *)
Lemma sumReadings_exact l : forall acc a,
  Forall isSample l ->
  (0 <= a)%Z -> (a + Z.of_nat (length l) * ADC_MAX <= 10 * ADC_MAX)%Z ->
  acc == inject_Z a * 5 / 1024 ->
  sumReadings l acc == acc + qsum l
  /\ exists b, (0 <= b <= a + Z.of_nat (length l) * ADC_MAX)%Z
               /\ sumReadings l acc == inject_Z b * 5 / 1024.
Proof.
  unfold ADC_MAX.
  induction l as [|x l IH]; intros acc a Hl Ha Hlen Hacc.
  - cbn. split; [ring|]. exists a. split; [lia|exact Hacc].
  - inversion Hl as [|? ? [c [Hc Hx]] Hl']; subst.
    unfold ADC_MAX in Hc. cbn [length] in Hlen.
    assert (Hadd : add acc x == inject_Z (a + c) * 5 / 1024).
    { unfold add. rewrite (fl_exact _ ((a + c) * 5) (-10)).
      - rewrite Hacc, Hx, inject_Z_plus. field.
      - unfold prec. lia.
      - rewrite Hacc, Hx, inject_Z_mult, inject_Z_plus.
        change (pow2 (-10)) with (1 # 1024). field. }
    destruct (IH (add acc x) (a + c)%Z Hl') as [Hsum [b [Hb Hsb]]];
      [lia|lia|exact Hadd|].
    cbn [sumReadings fold_left qsum fold_right].
    fold (sumReadings l (add acc x)). fold (qsum l). split.
    + rewrite Hsum, Hadd, Hacc, Hx, inject_Z_plus. field.
    + exists b. cbn [length]. split; [lia|exact Hsb].
Qed.

Variables (n e : Z).
Hypothesis Hn : (0 < n <= 10)%Z.
Hypothesis He : 5 == inject_Z n * pow2 e.

(** On a buffer of samples the filtered voltage is the exact mean. *)
Lemma readVoltage_mean sample s :
  filterOk n s -> Forall isSample (readings s) ->
  (0 <= sample <= ADC_MAX)%Z ->
  let s' := readVoltage n sample s in
  Forall isSample (readings s')
  /\ filteredVoltage s' == qsum (readings s') / inject_Z n.
Proof.
  intros [Hi Hlen] Hsam Hs. cbv zeta.
  assert (Hsam' : Forall isSample (readings (readVoltage n sample s))).
  { cbn. apply Forall_insert; [exact Hsam|now apply toVolts_isSample]. }
  split; [exact Hsam'|].
  cbn in *.
  set (l := <[Z.to_nat (readIndex s) := toVolts sample]> (readings s)) in *.
  assert (Hl : length l = Z.to_nat n)
    by (unfold l; now rewrite length_insert).
  destruct (sumReadings_exact l 0 0 Hsam') as [Hsum [b [Hb Hsb]]];
    [lia|rewrite Hl; unfold ADC_MAX; nia|reflexivity|].
  rewrite Hl in Hb. unfold ADC_MAX in Hb.
  assert (Hofn : of_int n == inject_Z n)
    by (apply of_int_exact; unfold prec; lia).
  assert (Hn0 : ~ inject_Z n == 0).
  { change 0 with (inject_Z 0). rewrite inject_Z_injective. lia. }
  unfold div. rewrite (fl_exact _ b (e - 10)).
  - rewrite Hofn, Hsum. change (foldr Qplus 0 l) with (qsum l). field. exact Hn0.
  - unfold prec. nia.
  - rewrite Hofn, Hsb. 
    replace (e - 10)%Z with (e + -10)%Z by lia.
    rewrite pow2_add. change (pow2 (-10)) with (1 # 1024).
    transitivity (inject_Z b * (inject_Z n * pow2 e) / 1024 / inject_Z n);
      [now rewrite <- He|field; exact Hn0].
Qed.

(** The buffer after [k] calls on one sample, starting from a cleared
    buffer. *)
Lemma feed_buffer sample k s :
  readings s = replicate (Z.to_nat n) 0 -> readIndex s = 0%Z ->
  (k <= Z.to_nat n)%nat ->
  readings (feed n sample k s)
  = replicate k (toVolts sample) ++ replicate (Z.to_nat n - k) 0
  /\ readIndex (feed n sample k s) = Z.rem (Z.of_nat k) n.
Proof.
  intros Hr Hi. induction k as [|k IH]; intros Hk.
  - cbn. rewrite Nat.sub_0_r, Z.rem_0_l by lia. now split.
  - destruct IH as [IHr IHi]; [lia|].
    cbn [feed]. set (sk := feed n sample k s) in *.
    unfold readVoltage. cbv zeta.
    cbn [readings readIndex set_readings set_readIndex set_filteredVoltage].
    rewrite IHr, IHi, Z.rem_small by lia. rewrite Nat2Z.id. split.
    + rewrite insert_app_r_alt by (rewrite length_replicate; lia).
      rewrite length_replicate, Nat.sub_diag, replicate_S_end, <- app_assoc.
      replace (Z.to_nat n - k)%nat with (S (Z.to_nat n - S k)) by lia.
      reflexivity.
    + f_equal. lia.
Qed.

Lemma qsum_replicate k m v :
  qsum (replicate k v ++ replicate m 0) == inject_Z (Z.of_nat k) * v.
Proof.
  induction k as [|k IH].
  - cbn [replicate app Z.of_nat]. induction m as [|m IHm]; cbn in *.
    + ring.
    + rewrite IHm. ring.
  - rewrite Nat2Z.inj_succ. unfold Z.succ. rewrite inject_Z_plus.
    cbn [replicate app qsum fold_right]. fold (qsum (replicate k v ++ replicate m 0)).
    rewrite IH. ring.
Qed.

(** Warm-up of the filter on a constant sample. *)
Lemma feed_mean sample k s :
  (0 <= sample <= ADC_MAX)%Z ->
  readings s = replicate (Z.to_nat n) 0 -> readIndex s = 0%Z ->
  filteredVoltage s = 0 ->
  (k <= Z.to_nat n)%nat ->
  filteredVoltage (feed n sample k s)
  == inject_Z (Z.of_nat k) * toVolts sample / inject_Z n.
Proof.
  intros Hs Hr Hi Hf Hk.
  assert (Hn0 : ~ inject_Z n == 0).
  { change 0 with (inject_Z 0). rewrite inject_Z_injective. lia. }
  destruct k as [|k].
  - cbn. rewrite Hf. field. exact Hn0.
  - destruct (feed_buffer sample k s Hr Hi) as [Bk Ik]; [lia|].
    destruct (feed_buffer sample (S k) s Hr Hi Hk) as [BSk _].
    assert (Hok : filterOk n (feed n sample k s)).
    { split.
      - rewrite Ik, Z.rem_small; lia.
      - rewrite Bk, length_app, !length_replicate. lia. }
    assert (Hsam : Forall isSample (readings (feed n sample k s))).
    { rewrite Bk. apply Forall_app. split; apply Forall_replicate.
      - now apply toVolts_isSample.
      - apply zero_isSample. }
    destruct (readVoltage_mean sample _ Hok Hsam Hs) as [_ Hmean].
    change (readVoltage n sample (feed n sample k s))
      with (feed n sample (S k) s) in Hmean.
    rewrite Hmean, BSk, qsum_replicate. reflexivity.
Qed.

End FilterFacts.

(** The band functions, [delay] and the passing of time leave the filter
    alone, and [readVoltage] looks at nothing else. *)

Lemma readVoltage_filterOf n sample s s' :
  filterOf s = filterOf s' ->
  filterOf (readVoltage n sample s) = filterOf (readVoltage n sample s').
Proof.
  unfold filterOf. intros H. injection H as Hr Hi Hf. cbn.
  now rewrite Hr, Hi.
Qed.

Lemma delay_filterOf ms s : filterOf (delay ms s) = filterOf s.
Proof. reflexivity. Qed.

Lemma elapse_filterOf lag s : filterOf (elapse lag s) = filterOf s.
Proof. reflexivity. Qed.

Lemma step_filterOf B s : In B bands -> filterOf (step B s) = filterOf s.
Proof.
  cbn; intros [<-|[<-|[<-|[<-|[<-|[<-|[]]]]]]]; band_unfold; band_cases s.
Qed.

Lemma V1_bands_filterOf s :
  filterOf (V1.checkCondition3 (V1.checkCondition2 (V1.checkCondition1 s)))
  = filterOf s.
Proof.
  pose proof (fun y => step_filterOf V1_NEXT y ltac:(cbn; tauto)) as H3.
  pose proof (fun y => step_filterOf V1_PREV y ltac:(cbn; tauto)) as H2.
  pose proof (fun y => step_filterOf V1_MUTE y ltac:(cbn; tauto)) as H1.
  cbn [step V1_NEXT V1_PREV V1_MUTE] in H1, H2, H3.
  now rewrite H3, H2, H1.
Qed.

Lemma V2_bands_filterOf s :
  filterOf (V2.checkCondition3 (V2.checkCondition2 (V2.checkCondition1 s)))
  = filterOf s.
Proof.
  pose proof (fun y => step_filterOf V2_NEXT y ltac:(cbn; tauto)) as H3.
  pose proof (fun y => step_filterOf V2_PREV y ltac:(cbn; tauto)) as H2.
  pose proof (fun y => step_filterOf V2_POWER y ltac:(cbn; tauto)) as H1.
  cbn [step V2_NEXT V2_PREV V2_POWER] in H1, H2, H3.
  now rewrite H3, H2, H1.
Qed.

Lemma V1_loop_filterOf sample lag s :
  filterOf (V1.loop sample (elapse lag s))
  = filterOf (readVoltage V1.numReadings sample s).
Proof.
  unfold V1.loop, V1.readVoltage.
  rewrite delay_filterOf, V1_bands_filterOf.
  apply readVoltage_filterOf, elapse_filterOf.
Qed.

Lemma V2_loop_filterOf sample lag s :
  filterOf (V2.loop sample (elapse lag s))
  = filterOf (readVoltage V2.NUM_READINGS sample s).
Proof.
  unfold V2.loop, V2.readVoltage.
  rewrite delay_filterOf, V2_bands_filterOf.
  apply readVoltage_filterOf, elapse_filterOf.
Qed.

(** Running a sketch on a constant sample feeds the filter with it. *)
Lemma run_feed loop n sample ins s :
  (forall x lag s, filterOf (loop x (elapse lag s)) = filterOf (readVoltage n x s)) ->
  Forall (fun i => raw i = sample) ins ->
  filterOf (run loop ins s) = filterOf (feed n sample (length ins) s).
Proof.
  intros Hloop. induction ins as [|i ins IH] using rev_ind; intros Hins.
  - reflexivity.
  - apply Forall_app in Hins as [Hins Hi]. inversion Hi as [|? ? Hraw _]; subst.
    unfold run in *. rewrite fold_left_app, length_app. cbn [fold_left length].
    rewrite Nat.add_1_r. cbn [feed].
    rewrite Hloop. apply readVoltage_filterOf. now apply IH.
Qed.

Lemma V1_init_cleared :
  readings V1.init = replicate (Z.to_nat V1.numReadings) 0%Q
  /\ readIndex V1.init = 0 /\ filteredVoltage V1.init = 0%Q.
Proof. repeat split. Qed.

Lemma V2_init_cleared :
  readings V2.init = replicate (Z.to_nat V2.NUM_READINGS) 0%Q
  /\ readIndex V2.init = 0 /\ filteredVoltage V2.init = 0%Q.
Proof. repeat split. Qed.

(** C5. Filter warm-up: from the cleared buffer, [k] ticks on one sample of
    voltage [v] leave the filtered voltage at exactly [k * v / N] as long as
    [k <= N], hence at [v] itself on the Nth tick; in both sketches
    (N = 10 and N = 5), and without any rounding error. *)
Theorem filter_warmup (sample : Z) (ins : list Input) :
  0 <= sample <= ADC_MAX ->
  Forall (fun i => raw i = sample) ins ->
  let k := Z.of_nat (length ins) in
  let v := toVolts sample in
  (k <= V1.numReadings ->
   (filteredVoltage (run V1.loop ins V1.init)
    == inject_Z k * v / inject_Z V1.numReadings)%Q)
  /\ (k = V1.numReadings ->
      (filteredVoltage (run V1.loop ins V1.init) == v)%Q)
  /\ (k <= V2.NUM_READINGS ->
      (filteredVoltage (run V2.loop ins V2.init)
       == inject_Z k * v / inject_Z V2.NUM_READINGS)%Q)
  /\ (k = V2.NUM_READINGS ->
      (filteredVoltage (run V2.loop ins V2.init) == v)%Q).
Proof.
  intros Hs Hins k v.
  destruct V1_init_cleared as (R1 & I1 & F1).
  destruct V2_init_cleared as (R2 & I2 & F2).
  assert (E1 : filteredVoltage (run V1.loop ins V1.init)
               = filteredVoltage (feed V1.numReadings sample (length ins) V1.init)).
  { pose proof (run_feed V1.loop V1.numReadings sample ins V1.init
                  V1_loop_filterOf Hins) as H.
    unfold filterOf in H. now injection H. }
  assert (E2 : filteredVoltage (run V2.loop ins V2.init)
               = filteredVoltage (feed V2.NUM_READINGS sample (length ins) V2.init)).
  { pose proof (run_feed V2.loop V2.NUM_READINGS sample ins V2.init
                  V2_loop_filterOf Hins) as H.
    unfold filterOf in H. now injection H. }
  assert (M1 : k <= V1.numReadings ->
               (filteredVoltage (run V1.loop ins V1.init)
                == inject_Z k * v / inject_Z V1.numReadings)%Q).
  { intros Hk. rewrite E1.
    apply (feed_mean V1.numReadings (-1)); auto.
    - unfold V1.numReadings. lia.
    - reflexivity.
    - unfold k in Hk. lia. }
  assert (M2 : k <= V2.NUM_READINGS ->
               (filteredVoltage (run V2.loop ins V2.init)
                == inject_Z k * v / inject_Z V2.NUM_READINGS)%Q).
  { intros Hk. rewrite E2.
    apply (feed_mean V2.NUM_READINGS 0); auto.
    - unfold V2.NUM_READINGS. lia.
    - reflexivity.
    - unfold k in Hk. lia. }
  repeat split; auto.
  - intros Hk. rewrite M1 by lia. rewrite Hk. unfold V1.numReadings. field.
  - intros Hk. rewrite M2 by lia. rewrite Hk. unfold V2.NUM_READINGS. field.
Qed.

Lemma filter_warmup_witness :
  let ins := [mkInput 1 512; mkInput 2 512; mkInput 1 512] in
  (filteredVoltage (run V1.loop ins V1.init)
   == inject_Z 3 * toVolts 512 / inject_Z V1.numReadings)%Q.
Proof.
  intros ins.
  refine (proj1 (filter_warmup 512 ins _ _) _).
  - unfold ADC_MAX. lia.
  - repeat constructor.
  - cbn. unfold V1.numReadings. lia.
Defined.

(** ** Filter: the buffer *)

Lemma readVoltage_filterOk n sample s :
  0 < n -> filterOk n s -> filterOk n (readVoltage n sample s).
Proof.
  intros Hn [Hi Hl]. split; cbn.
  - rewrite Z.rem_mod_nonneg by lia. apply Z.mod_pos_bound. lia.
  - now rewrite length_insert.
Qed.

Lemma run_filterOk loop n ins s :
  0 < n ->
  (forall x lag s, filterOf (loop x (elapse lag s)) = filterOf (readVoltage n x s)) ->
  filterOk n s -> filterOk n (run loop ins s).
Proof.
  intros Hn Hloop. induction ins as [|i ins IH] using rev_ind; intros Hs.
  - exact Hs.
  - unfold run in *. rewrite fold_left_app. cbn [fold_left].
    specialize (IH Hs).
    pose proof (Hloop (raw i) (lag i) (fold_left (fun s i => loop (raw i) (elapse (lag i) s)) ins s)) as E.
    pose proof (readVoltage_filterOk n (raw i) _ Hn IH) as Hok.
    unfold filterOf in E. injection E as Er Ei _.
    unfold filterOk in *. now rewrite Er, Ei.
Qed.

(** The buffer is well-formed in every state either sketch reaches. *)
Lemma reachable_filterOk ins :
  filterOk V1.numReadings (run V1.loop ins V1.init)
  /\ filterOk V2.NUM_READINGS (run V2.loop ins V2.init).
Proof.
  split.
  - apply run_filterOk; [reflexivity|apply V1_loop_filterOf|].
    split; [cbn; unfold V1.numReadings, V2.NUM_READINGS; lia|reflexivity].
  - apply run_filterOk; [reflexivity|apply V2_loop_filterOf|].
    split; [cbn; unfold V1.numReadings, V2.NUM_READINGS; lia|reflexivity].
Qed.

(** C9. One call of [readVoltage] (buffer of [n] slots: 10 in the first
    sketch, 5 in the second) overwrites the slot at the old [readIndex] and
    no other, keeps the length of the buffer, and moves [readIndex] on by one
    modulo [n], so that it stays in [0, n). *)
Theorem readVoltage_one_slot (n sample : Z) (s : State) :
  0 < n -> filterOk n s -> oneSlot n sample s (readVoltage n sample s).
Proof.
  intros Hn [Hi Hl]. unfold oneSlot. cbn.
  repeat split.
  - apply list_lookup_insert_eq. lia.
  - intros j Hj. now apply list_lookup_insert_ne.
  - apply length_insert.
  - apply Z.rem_mod_nonneg; lia.
  - rewrite Z.rem_mod_nonneg by lia. apply Z.mod_pos_bound. lia.
  - rewrite Z.rem_mod_nonneg by lia. apply Z.mod_pos_bound. lia.
Qed.

Lemma readVoltage_one_slot_witness :
  oneSlot V1.numReadings 512 (V1.readVoltage 700 V1.init)
    (V1.readVoltage 512 (V1.readVoltage 700 V1.init)).
Proof.
  apply (readVoltage_one_slot V1.numReadings 512 (V1.readVoltage 700 V1.init)).
  - reflexivity.
  - vm_compute. repeat split; discriminate.
Defined.

(** On samples in range the filter never rounds: after every loop
    iteration the filtered voltage is the exact mean of the buffer. *)
Lemma run_exact_mean loop n e ins : forall i s,
  0 < n <= 10 -> (5 == inject_Z n * Float.pow2 e)%Q ->
  (forall x lag s, filterOf (loop x (elapse lag s)) = filterOf (readVoltage n x s)) ->
  filterOk n s -> Forall isSample (readings s) ->
  Forall (fun i => 0 <= raw i <= ADC_MAX) (ins ++ [i]) ->
  let s' := run loop (ins ++ [i]) s in
  Forall isSample (readings s')
  /\ (filteredVoltage s' == qsum (readings s') / inject_Z n)%Q.
Proof.
  induction ins as [|j ins IH] using rev_ind;
    intros i s Hn He Hloop Hok Hsam Hins; cbv zeta.
  - cbn. inversion Hins as [|? ? Hi _]; subst.
    pose proof (Hloop (raw i) (lag i) s) as E.
    unfold filterOf in E. injection E as Er _ Ef. rewrite Er, Ef.
    now apply (readVoltage_mean n e Hn He).
  - apply Forall_app in Hins as [Hins Hi]. inversion Hi as [|? ? Hi' _]; subst.
    destruct (IH j s Hn He Hloop Hok Hsam Hins) as [Hsam' _].
    pose proof (run_filterOk loop n (ins ++ [j]) s ltac:(lia) Hloop Hok) as Hok'.
    unfold run in *. rewrite fold_left_app. cbn [fold_left].
    set (s1 := fold_left (fun s i => loop (raw i) (elapse (lag i) s)) (ins ++ [j]) s) in *.
    pose proof (Hloop (raw i) (lag i) s1) as E.
    unfold filterOf in E. injection E as Er _ Ef. rewrite Er, Ef.
    now apply (readVoltage_mean n e Hn He).
Qed.

Lemma V1_filter_exact_mean ins i :
  Forall (fun i => 0 <= raw i <= ADC_MAX) (ins ++ [i]) ->
  let s' := run V1.loop (ins ++ [i]) V1.init in
  (filteredVoltage s' == qsum (readings s') / inject_Z V1.numReadings)%Q.
Proof.
  intros Hins.
  apply (run_exact_mean V1.loop V1.numReadings (-1) ins i V1.init); auto.
  - unfold V1.numReadings. lia.
  - reflexivity.
  - apply V1_loop_filterOf.
  - split; [cbn; unfold V1.numReadings; lia|reflexivity].
  - apply Forall_replicate, zero_isSample.
Qed.

Lemma V2_filter_exact_mean ins i :
  Forall (fun i => 0 <= raw i <= ADC_MAX) (ins ++ [i]) ->
  let s' := run V2.loop (ins ++ [i]) V2.init in
  (filteredVoltage s' == qsum (readings s') / inject_Z V2.NUM_READINGS)%Q.
Proof.
  intros Hins.
  apply (run_exact_mean V2.loop V2.NUM_READINGS 0 ins i V2.init); auto.
  - unfold V2.NUM_READINGS. lia.
  - reflexivity.
  - apply V2_loop_filterOf.
  - split; [cbn; unfold V2.NUM_READINGS; lia|reflexivity].
  - apply Forall_replicate, zero_isSample.
Qed.

(** ** Filter: the conversion from samples to volts *)

(** No sample but 0 is converted as a division by [ADC_MAX] would. *)
Lemma toVolts_not_over_ADC_MAX sample :
  0 < sample <= ADC_MAX ->
  ~ (toVolts sample == inject_Z sample * 5 / inject_Z ADC_MAX)%Q.
Proof.
  intros Hs H. rewrite toVolts_exact in H by lia.
  unfold ADC_MAX, Qeq in *. cbn in H. lia.
Qed.

(** C6, as stated, fails: the sketch divides by 1024, not by the largest
    sample 1023, so the full-scale sample is stored as 5115/1024 V, not as
    5 V. *)
Lemma toVolts_full_scale :
  0 <= ADC_MAX <= ADC_MAX
  /\ readings (V1.readVoltage ADC_MAX V1.init) !! 0%nat = Some (5115 # 1024)%Q
  /\ readings (V2.readVoltage ADC_MAX V2.init) !! 0%nat = Some (5115 # 1024)%Q
  /\ ~ ((5115 # 1024) == inject_Z ADC_MAX * 5 / inject_Z ADC_MAX)%Q.
Proof.
  split; [unfold ADC_MAX; lia|].
  split; [vm_compute; reflexivity|].
  split; [vm_compute; reflexivity|].
  intros H. vm_compute in H. discriminate H.
Qed.

(** C6, amended. For every sample [0 <= raw <= 1023] the value stored in the
    buffer, at the slot of the old write index, is exactly
    [raw * 5 / 1024] volts: the divisor is the number of levels of the
    converter, 1024. *)
Theorem toVolts_linear (n raw : Z) (s : State) :
  0 <= raw <= ADC_MAX -> 0 < n -> filterOk n s ->
  exists x, readings (readVoltage n raw s) !! Z.to_nat (readIndex s) = Some x
            /\ (x == inject_Z raw * 5 / 1024)%Q.
Proof.
  intros Hr Hn [Hi Hl]. exists (toVolts raw). split.
  - cbn. apply list_lookup_insert_eq. lia.
  - now apply toVolts_exact.
Qed.

Lemma toVolts_linear_witness :
  exists x, readings (V2.readVoltage 809 V2.init) !! 0%nat = Some x
            /\ (x == inject_Z 809 * 5 / 1024)%Q.
Proof.
  apply (toVolts_linear V2.NUM_READINGS 809 V2.init).
  - unfold ADC_MAX. lia.
  - reflexivity.
  - split; [cbn; unfold V1.numReadings, V2.NUM_READINGS; lia|reflexivity].
Defined.

(** ** Band logic: one call *)

Lemma usub_stamp t t0 : usub (stamp t) (stamp t0) = (t - t0) mod ULONG.
Proof. unfold usub, stamp. now rewrite <- Zminus_mod. Qed.

Section BandSteps.

Variable B : Band.
Hypothesis HB : BandOk B.

(** Outside the band: the band is reset, and released if it was latched. *)
Lemma step_outside s :
  within B (filteredVoltage s) = false ->
  Idle B (step B s)
  /\ trace (step B s) = trace s ++ (if active B s then onRelease B else []).
Proof.
  intros Hv. unfold Idle.
  rewrite (ok_active B HB), (ok_start B HB), (ok_trace B HB).
  unfold nextActive, nextStart, emitted. now rewrite Hv.
Qed.

(** Inside the band and latched: nothing happens. *)
Lemma step_latched s :
  within B (filteredVoltage s) = true -> active B s = true ->
  active B (step B s) = true /\ start B (step B s) = start B s
  /\ trace (step B s) = trace s.
Proof.
  intros Hv Ha.
  rewrite (ok_active B HB), (ok_start B HB), (ok_trace B HB).
  unfold nextActive, nextStart, emitted. rewrite Hv, Ha. cbn.
  now rewrite app_nil_r.
Qed.

(** Inside the band and idle: the entry time is recorded. *)
Lemma step_enter s :
  within B (filteredVoltage s) = true -> Idle B s ->
  active B (step B s) = false /\ start B (step B s) = millis s
  /\ trace (step B s) = trace s.
Proof.
  intros Hv [Ha Hs].
  rewrite (ok_active B HB), (ok_start B HB), (ok_trace B HB).
  unfold nextActive, nextStart, emitted. rewrite Hv, Ha, Hs. cbn.
  now rewrite app_nil_r.
Qed.

(** Inside the band and pending: the band latches once the hold time has
    passed. *)
Lemma step_pending s :
  within B (filteredVoltage s) = true -> Pending B s ->
  let reached := hold B <=? usub (millis s) (start B s) in
  active B (step B s) = reached /\ start B (step B s) = start B s
  /\ trace (step B s) = trace s ++ (if reached then onLatch B else []).
Proof.
  intros Hv [Ha Hs]. cbv zeta.
  rewrite (ok_active B HB), (ok_start B HB), (ok_trace B HB).
  unfold nextActive, nextStart, emitted. rewrite Hv, Ha.
  destruct (Z.eqb_spec (start B s) 0) as [E|_]; [contradiction|].
  now cbn.
Qed.

(** *** Runs of in-band observations *)

Lemma runBand_cons o obs s :
  runBand (step B) (o :: obs) s
  = runBand (step B) obs (step B (observe (fst o) (snd o) s)).
Proof. reflexivity. Qed.

Lemma runBand_app obs1 obs2 s :
  runBand (step B) (obs1 ++ obs2) s
  = runBand (step B) obs2 (runBand (step B) obs1 s).
Proof. unfold runBand. apply fold_left_app. Qed.

Lemma run_latched obs : forall s,
  Forall (fun o => within B (snd o) = true) obs ->
  active B s = true ->
  let s' := runBand (step B) obs s in
  active B s' = true /\ start B s' = start B s /\ trace s' = trace s.
Proof.
  induction obs as [|[t v] obs IH]; intros s Hobs Ha; cbv zeta.
  - now cbn.
  - inversion Hobs as [|? ? Hv Hobs']; subst. cbn [snd] in Hv.
    rewrite runBand_cons. cbn [fst snd].
    destruct (step_latched (observe t v s)) as (A & S & T).
    + exact Hv.
    + now rewrite (ok_observe_active B HB).
    + destruct (IH _ Hobs' A) as (A' & S' & T').
      rewrite A', S', T', S, T. now rewrite (ok_observe_start B HB).
Qed.

Lemma run_pending obs : forall s,
  Forall (fun o => within B (snd o) = true) obs ->
  Pending B s ->
  let reached :=
    existsb (fun o => hold B <=? usub (stamp (fst o)) (start B s)) obs in
  let s' := runBand (step B) obs s in
  active B s' = reached /\ start B s' = start B s
  /\ trace s' = trace s ++ (if reached then onLatch B else []).
Proof.
  induction obs as [|[t v] obs IH]; intros s Hobs HP; cbv zeta.
  - destruct HP as [Ha _]. cbn. now rewrite app_nil_r.
  - inversion Hobs as [|? ? Hv Hobs']; subst. cbn [snd] in Hv.
    rewrite runBand_cons. cbn [fst snd existsb].
    assert (HP' : Pending B (observe t v s)).
    { destruct HP. split;
        [now rewrite (ok_observe_active B HB)|now rewrite (ok_observe_start B HB)]. }
    destruct (step_pending (observe t v s) Hv HP') as (A & S & T).
    rewrite (ok_observe_start B HB) in A, S, T.
    change (millis (observe t v s)) with (stamp t) in A, T.
    change (trace (observe t v s)) with (trace s) in T.
    destruct (hold B <=? usub (stamp t) (start B s)) eqn:E.
    + destruct (run_latched obs _ Hobs' A) as (A' & S' & T').
      rewrite A', S', T', S, T. now cbn.
    + assert (HP'' : Pending B (step B (observe t v s))).
      { split; [exact A|rewrite S; apply HP]. }
      destruct (IH _ Hobs' HP'') as (A' & S' & T').
      rewrite A', S', T', S, T, app_nil_r. now cbn.
Qed.

(** An occupancy that starts in the idle state at a time [t0] whose stamp
    is not 0. *)
Lemma run_idle t0 v0 obs s :
  Forall (fun o => within B (snd o) = true) ((t0, v0) :: obs) ->
  Idle B s -> stamp t0 <> 0 ->
  let reached := existsb (fun o => held B t0 (fst o)) obs in
  let s' := runBand (step B) ((t0, v0) :: obs) s in
  active B s' = reached /\ start B s' = stamp t0
  /\ trace s' = trace s ++ (if reached then onLatch B else []).
Proof.
  intros Hobs HI Ht0. cbv zeta.
  inversion Hobs as [|? ? Hv Hobs']; subst. cbn [snd] in Hv.
  rewrite runBand_cons. cbn [fst snd].
  assert (HI' : Idle B (observe t0 v0 s)).
  { destruct HI. split;
      [now rewrite (ok_observe_active B HB)|now rewrite (ok_observe_start B HB)]. }
  destruct (step_enter (observe t0 v0 s) Hv HI') as (A & S & T).
  change (millis (observe t0 v0 s)) with (stamp t0) in S.
  change (trace (observe t0 v0 s)) with (trace s) in T.
  assert (HP : Pending B (step B (observe t0 v0 s)))
    by (split; [exact A|now rewrite S]).
  destruct (run_pending obs _ Hobs' HP) as (A' & S' & T').
  rewrite A', S', T', S, T. unfold held. now repeat split.
Qed.

End BandSteps.

(** ** Band logic: a latched band has a recorded entry time *)

Lemma step_entryRecorded B s :
  In B bands -> entryRecorded s -> entryRecorded (step B s).
Proof.
  cbn; intros [<-|[<-|[<-|[<-|[<-|[<-|[]]]]]]]; entry_cases s.
Qed.

Lemma delay_entryRecorded ms s : entryRecorded s -> entryRecorded (delay ms s).
Proof. intros H. exact H. Qed.

Lemma elapse_entryRecorded lag s : entryRecorded s -> entryRecorded (elapse lag s).
Proof. intros H. exact H. Qed.

Lemma readVoltage_entryRecorded n sample s :
  entryRecorded s -> entryRecorded (readVoltage n sample s).
Proof. intros H. exact H. Qed.

Lemma V1_bands_entryRecorded x :
  entryRecorded x ->
  entryRecorded (V1.checkCondition3 (V1.checkCondition2 (V1.checkCondition1 x))).
Proof.
  intros H.
  pose proof (fun y => step_entryRecorded V1_NEXT y ltac:(cbn; tauto)) as H3.
  pose proof (fun y => step_entryRecorded V1_PREV y ltac:(cbn; tauto)) as H2.
  pose proof (fun y => step_entryRecorded V1_MUTE y ltac:(cbn; tauto)) as H1.
  cbn [step V1_NEXT V1_PREV V1_MUTE] in H1, H2, H3.
  apply H3, H2, H1, H.
Qed.

Lemma V2_bands_entryRecorded x :
  entryRecorded x ->
  entryRecorded (V2.checkCondition3 (V2.checkCondition2 (V2.checkCondition1 x))).
Proof.
  intros H.
  pose proof (fun y => step_entryRecorded V2_NEXT y ltac:(cbn; tauto)) as H3.
  pose proof (fun y => step_entryRecorded V2_PREV y ltac:(cbn; tauto)) as H2.
  pose proof (fun y => step_entryRecorded V2_POWER y ltac:(cbn; tauto)) as H1.
  cbn [step V2_NEXT V2_PREV V2_POWER] in H1, H2, H3.
  apply H3, H2, H1, H.
Qed.

Lemma V1_loop_entryRecorded sample s :
  entryRecorded s -> entryRecorded (V1.loop sample s).
Proof.
  intros H. unfold V1.loop.
  apply delay_entryRecorded, V1_bands_entryRecorded, readVoltage_entryRecorded, H.
Qed.

Lemma V2_loop_entryRecorded sample s :
  entryRecorded s -> entryRecorded (V2.loop sample s).
Proof.
  intros H. unfold V2.loop.
  apply delay_entryRecorded, V2_bands_entryRecorded, readVoltage_entryRecorded, H.
Qed.

Lemma run_entryRecorded loop ins : forall s,
  (forall x s, entryRecorded s -> entryRecorded (loop x s)) ->
  entryRecorded s -> entryRecorded (run loop ins s).
Proof.
  induction ins as [|i ins IH]; intros s Hloop Hs.
  - exact Hs.
  - cbn. apply IH; [exact Hloop|]. apply Hloop, elapse_entryRecorded, Hs.
Qed.

(** C8. In every state either sketch reaches from its initial state, after
    any number of loop iterations on any samples and at any times, each band
    whose flag [conditionIActive] is set has [startTimeI <> 0]. *)
Theorem latched_has_entry_time (ins : list Input) :
  entryRecorded (run V1.loop ins V1.init)
  /\ entryRecorded (run V2.loop ins V2.init).
Proof.
  split.
  - apply run_entryRecorded; [apply V1_loop_entryRecorded|].
    repeat split; discriminate.
  - apply run_entryRecorded; [apply V2_loop_entryRecorded|].
    repeat split; discriminate.
Qed.

(** ** Band logic: what the pins see *)

Lemma pinLevel_app pin tr evs :
  pinLevel pin (tr ++ evs)
  = fold_left (fun cur e =>
                 match e with
                 | DigitalWrite p l => if p =? pin then Some l else cur
                 | Delay _ => cur
                 end) evs (pinLevel pin tr).
Proof. unfold pinLevel. apply fold_left_app. Qed.

(** Releasing a band writes the inactive level to each of its outputs. *)
Lemma release_levels B :
  In B bands ->
  onRelease B
  = List.map (fun o => DigitalWrite (fst o) (inactive (snd o))) (outputs B)
  /\ forall tr pin level,
       In (pin, level) (outputs B) ->
       pinLevel pin (tr ++ onRelease B) = Some (inactive level).
Proof.
  cbn; intros [<-|[<-|[<-|[<-|[<-|[<-|[]]]]]]]; (split; [reflexivity|]);
    intros tr pin level Hin; rewrite pinLevel_app; cbn in Hin |- *;
    repeat (destruct Hin as [Hin|Hin]; [injection Hin as <- <-; reflexivity|]);
    destruct Hin.
Qed.

(** A band with one output writes the active level when it latches and the
    inactive one when it is released; the part [more] of a latch is the
    blocking delay of the second sketch. *)
Lemma simple_band_events B :
  In B simpleBands ->
  exists pin level more,
    outputs B = [(pin, level)]
    /\ onLatch B = DigitalWrite pin level :: more
    /\ Forall (fun e => exists ms, e = Delay ms) more
    /\ onRelease B = [DigitalWrite pin (inactive level)].
Proof.
  cbn; intros [<-|[<-|[<-|[<-|[<-|[]]]]]]; cbn; do 3 eexists;
    repeat split; repeat constructor; eauto.
Qed.

Lemma simple_is_band B : In B simpleBands -> In B bands.
Proof. cbn. tauto. Qed.

Lemma delayed_is_band B : In B delayedBands -> In B bands.
Proof. cbn. tauto. Qed.

(** C4. On a tick with the filtered voltage outside its band, every band of
    either sketch ends with its flag false and its timer 0, whatever its
    state was; a band that was latched, for however many in-band ticks,
    stays latched and silent until that tick, on which each of its outputs
    is written to its inactive level. *)
Theorem exit_resets_and_releases (B : Band) :
  In B bands ->
  (forall s,
      within B (filteredVoltage s) = false ->
      Idle B (step B s)
      /\ trace (step B s) = trace s ++ (if active B s then onRelease B else []))
  /\ (forall s obs t v,
         Latched B s ->
         Forall (fun o => within B (snd o) = true) obs ->
         within B v = false ->
         let s1 := runBand (step B) obs s in
         let s2 := runBand (step B) (obs ++ [(t, v)]) s in
         Latched B s1 /\ trace s1 = trace s
         /\ Idle B s2 /\ trace s2 = trace s ++ onRelease B
         /\ forall pin level,
              In (pin, level) (outputs B) ->
              pinLevel pin (trace s2) = Some (inactive level))
  /\ onRelease B
     = List.map (fun o => DigitalWrite (fst o) (inactive (snd o))) (outputs B).
Proof.
  intros HB. pose proof (bands_ok B HB) as Hok.
  destruct (release_levels B HB) as [Hrel Hpins].
  split; [|split; [|exact Hrel]].
  - intros s Hv. now apply step_outside.
  - intros s obs t v HL Hobs Hv. cbv zeta.
    destruct (run_latched B Hok obs s Hobs HL) as (A & S & T).
    rewrite (runBand_app B). cbn [runBand fold_left fst snd].
    fold (runBand (step B) obs s).
    destruct (step_outside B Hok (observe t v (runBand (step B) obs s)) Hv)
      as (HI & T').
    rewrite (ok_observe_active B Hok), A in T'.
    change (trace (observe t v (runBand (step B) obs s)))
      with (trace (runBand (step B) obs s)) in T'.
    rewrite T in T'.
    repeat split; try assumption; try apply HI.
    intros pin level Hin. rewrite T'. now apply Hpins.
Qed.

Lemma exit_resets_and_releases_witness :
  let s := runBand V1.checkCondition1
             [(5000, (15 # 4)%Q); (5150, (15 # 4)%Q); (5300, (15 # 4)%Q)]
             V1.init in
  Idle V1_MUTE (V1.checkCondition1 (observe 5400 3%Q s))
  /\ trace (V1.checkCondition1 (observe 5400 3%Q s))
     = trace (observe 5400 3%Q s)
       ++ [DigitalWrite V1.MUTE_PIN LOW; DigitalWrite V1.RESET_PIN LOW].
Proof.
  intros s.
  refine (proj1 (exit_resets_and_releases V1_MUTE _) (observe 5400 3%Q s) _).
  - cbn. tauto.
  - vm_compute. reflexivity.
Defined.

(** ** Band logic: when a band latches *)

Lemma existsb_all_false {A} (f : A -> bool) l :
  Forall (fun x => f x = false) l -> existsb f l = false.
Proof.
  induction 1 as [|x l Hx _ IH]; [reflexivity|]. cbn. now rewrite Hx, IH.
Qed.

Lemma existsb_ext_Forall {A} (f g : A -> bool) l :
  Forall (fun x => f x = g x) l -> existsb f l = existsb g l.
Proof.
  induction 1 as [|x l Hx _ IH]; [reflexivity|]. cbn. now rewrite Hx, IH.
Qed.

(** An occupancy entered at a time [t0] with a non-zero stamp latches at the
    first tick that finds the hold time passed, and at no earlier one. *)
Lemma latch_at_first_held B s t0 v0 pre t v post :
  BandOk B -> Idle B s -> stamp t0 <> 0 ->
  Forall (fun o => within B (snd o) = true) ((t0, v0) :: pre ++ (t, v) :: post) ->
  Forall (fun o => held B t0 (fst o) = false) pre ->
  held B t0 t = true ->
  (forall i,
      let s' := runBand (step B) ((t0, v0) :: take i pre) s in
      active B s' = false /\ trace s' = trace s)
  /\ (let s' := runBand (step B) ((t0, v0) :: pre ++ [(t, v)]) s in
      active B s' = true /\ trace s' = trace s ++ onLatch B)
  /\ (let s' := runBand (step B) ((t0, v0) :: pre ++ (t, v) :: post) s in
      active B s' = true /\ trace s' = trace s ++ onLatch B).
Proof.
  intros Hok HI Ht0 Hobs Hpre Ht.
  assert (Hv0 : within B v0 = true) by (now inversion Hobs).
  assert (Hrest : Forall (fun o => within B (snd o) = true) (pre ++ (t, v) :: post))
    by (now inversion Hobs).
  apply Forall_app in Hrest as [Hin_pre Hin_post].
  assert (Hin_t : within B v = true) by (now inversion Hin_post).
  split; [|split]; cbv zeta.
  - intros i.
    destruct (run_idle B Hok t0 v0 (take i pre) s) as (A & _ & T); auto.
    { constructor; [exact Hv0|]. now apply Forall_take. }
    rewrite existsb_all_false in A, T by (now apply Forall_take).
    now rewrite app_nil_r in T.
  - destruct (run_idle B Hok t0 v0 (pre ++ [(t, v)]) s) as (A & _ & T); auto.
    { constructor; [exact Hv0|]. apply Forall_app. split; [exact Hin_pre|].
      now repeat constructor. }
    rewrite existsb_app, existsb_all_false in A, T by exact Hpre.
    cbn in A, T. rewrite Ht in A, T. now split.
  - destruct (run_idle B Hok t0 v0 (pre ++ (t, v) :: post) s) as (A & _ & T); auto.
    rewrite existsb_app, existsb_all_false in A, T by exact Hpre.
    cbn in A, T. rewrite Ht in A, T. now split.
Qed.

(** C3, as stated, fails when the clock reads 0 at the first in-band tick
    (it does after 2^32 ms): NEXT band of the first sketch, ticks 20 ms
    apart from [t0 = 2^32]; the tick at [t0 + 300] is the first with
    [t - t0 >= 300], and the band is not latched after it, only after the
    next one. *)
Lemma next_not_latched_after_zero_stamp :
  let t0 := 2 ^ 32 in
  let obs := ticks t0 20 16 (13 # 8)%Q in
  Idle V1_NEXT V1.init
  /\ Forall (fun o => within V1_NEXT (snd o) = true) obs
  /\ last (List.map fst obs) = Some (t0 + 300)
  /\ V1.DURATION_THRESHOLD_1 <= (t0 + 300) - t0
  /\ condition3Active (runBand V1.checkCondition3 obs V1.init) = false
  /\ trace (runBand V1.checkCondition3 obs V1.init) = trace V1.init
  /\ condition3Active
       (runBand V1.checkCondition3 (ticks t0 20 17 (13 # 8)%Q) V1.init) = true.
Proof.
  vm_compute. repeat split; try discriminate. repeat constructor.
Qed.

(** C3, amended. For a band with one hold threshold [T], in either sketch:
    if the band is idle, the clock is not 0 (as an [unsigned long]) at the
    first in-band tick [t0], and the voltage stays in the band, then the
    output is written to its active level at the first tick [t] with
    [t - t0 >= T] (32-bit unsigned subtraction), at no earlier tick, and at
    no later one. *)
Theorem single_threshold_first_tick
    (B : Band) (s : State) (t0 : Z) (v0 : Q) (pre : list (Z * Q))
    (t : Z) (v : Q) (post : list (Z * Q)) :
  In B simpleBands ->
  Idle B s -> stamp t0 <> 0 ->
  Forall (fun o => within B (snd o) = true) ((t0, v0) :: pre ++ (t, v) :: post) ->
  Forall (fun o => held B t0 (fst o) = false) pre ->
  held B t0 t = true ->
  (forall i,
      let s' := runBand (step B) ((t0, v0) :: take i pre) s in
      active B s' = false /\ trace s' = trace s)
  /\ (let s' := runBand (step B) ((t0, v0) :: pre ++ [(t, v)]) s in
      active B s' = true /\ trace s' = trace s ++ onLatch B)
  /\ (let s' := runBand (step B) ((t0, v0) :: pre ++ (t, v) :: post) s in
      active B s' = true /\ trace s' = trace s ++ onLatch B)
  /\ (exists pin level more,
         outputs B = [(pin, level)]
         /\ onLatch B = DigitalWrite pin level :: more
         /\ Forall (fun e => exists ms, e = Delay ms) more)
  /\ (forall a b, held B a b = (hold B <=? (b - a) mod 2 ^ 32)).
Proof.
  intros HB HI Ht0 Hobs Hpre Ht.
  pose proof (bands_ok B (simple_is_band B HB)) as Hok.
  destruct (latch_at_first_held B s t0 v0 pre t v post Hok HI Ht0 Hobs Hpre Ht)
    as (H1 & H2 & H3).
  destruct (simple_band_events B HB) as (pin & level & more & Ho & Hl & Hm & _).
  repeat split; try apply H1; try apply H2; try apply H3.
  - exists pin, level, more. auto.
  - intros a b. unfold held. now rewrite usub_stamp.
Qed.

Lemma single_threshold_first_tick_witness :
  let s' := runBand V1.checkCondition3
              ([(5000, (13 # 8)%Q)] ++ [(5100, (13 # 8)%Q); (5200, (13 # 8)%Q)]
               ++ [(5300, (13 # 8)%Q)]) V1.init in
  condition3Active s' = true
  /\ trace s' = trace V1.init ++ [DigitalWrite V1.NEXT_PIN HIGH].
Proof.
  refine (proj1 (proj2 (single_threshold_first_tick V1_NEXT V1.init 5000 (13 # 8)%Q
            [(5100, (13 # 8)%Q); (5200, (13 # 8)%Q)] 5300 (13 # 8)%Q []
            _ _ _ _ _ _))).
  - cbn. tauto.
  - split; reflexivity.
  - vm_compute. discriminate.
  - repeat constructor.
  - repeat constructor.
  - reflexivity.
Defined.

(** The 3000 ms branch of the first sketch's [checkCondition1] is tried only
    after the 300 ms test has failed.  Even if the two [millis()] calls
    returned different values [m2] and [m3], the branch could only be taken
    if the clock had jumped by more than 2700 ms between them. *)
Lemma reset_branch_needs_clock_jump st m2 m3 :
  0 <= st < ULONG -> 0 <= m2 < ULONG -> 0 <= m3 < ULONG ->
  usub m2 st < V1.DURATION_THRESHOLD_1 ->
  V1.DURATION_THRESHOLD_2 <= usub m3 st ->
  V1.DURATION_THRESHOLD_2 - V1.DURATION_THRESHOLD_1 < usub m3 m2.
Proof.
  unfold usub, ULONG, V1.DURATION_THRESHOLD_1, V1.DURATION_THRESHOLD_2.
  intros Hst Hm2 Hm3 H2 H3.
  replace (m3 - m2) with ((m3 - st) - (m2 - st)) by lia.
  rewrite Zminus_mod.
  pose proof (Z.mod_pos_bound (m2 - st) (2 ^ 32) eq_refl).
  pose proof (Z.mod_pos_bound (m3 - st) (2 ^ 32) eq_refl).
  rewrite Z.mod_small; lia.
Qed.

(** Whatever a band function is run on, it only ever makes the calls of a
    latch or of a release. *)
Lemma run_events B obs : forall s,
  BandOk B ->
  exists evs,
    trace (runBand (step B) obs s) = trace s ++ evs
    /\ Forall (fun e => In e (onLatch B ++ onRelease B)) evs.
Proof.
  induction obs as [|[t v] obs IH]; intros s Hok.
  - exists []. split; [now rewrite app_nil_r|constructor].
  - rewrite (runBand_cons B). cbn [fst snd].
    destruct (IH (step B (observe t v s)) Hok) as (evs & T & Hevs).
    exists (emitted B (observe t v s) ++ evs). split.
    + rewrite T, (ok_trace B Hok). cbn [observe trace set_filteredVoltage set_clock].
      now rewrite app_assoc.
    + apply Forall_app. split; [|exact Hevs].
      apply List.Forall_forall. intros e He. apply in_or_app.
      unfold emitted in He.
      repeat match type of He with
             | In _ (if ?c then _ else _) => destruct c
             end; try (now left); try (now right); destruct He.
Qed.

(** C1, as stated, fails when the clock reads 0 at the first in-band tick:
    MUTE band of the first sketch, ticks 10 ms apart from [t0 = 2^32]; the
    tick at [t0 + 300] is the first with elapsed time >= 300 ms, and
    [MUTE_PIN] is only written at the next one. *)
Lemma mute_not_latched_after_zero_stamp :
  let t0 := 2 ^ 32 in
  let obs := ticks t0 10 31 (15 # 4)%Q in
  Idle V1_MUTE V1.init
  /\ Forall (fun o => within V1_MUTE (snd o) = true) obs
  /\ last (List.map fst obs) = Some (t0 + 300)
  /\ V1.DURATION_THRESHOLD_1 <= (t0 + 300) - t0
  /\ condition1Active (runBand V1.checkCondition1 obs V1.init) = false
  /\ trace (runBand V1.checkCondition1 obs V1.init) = trace V1.init
  /\ trace (runBand V1.checkCondition1 (ticks t0 10 32 (15 # 4)%Q) V1.init)
     = trace V1.init ++ [DigitalWrite V1.MUTE_PIN HIGH].
Proof.
  vm_compute. repeat split; try discriminate. repeat constructor.
Qed.

(** C1, amended. MUTE band of the first sketch (3.70-3.90 V, 300 ms and
    3000 ms): in an occupancy that starts from the idle band at a tick [t0]
    where the clock is not 0 (as an [unsigned long]), [MUTE_PIN] is written
    HIGH at the first tick [t] with [t - t0 >= 300] (32-bit unsigned
    subtraction), at no earlier tick and never again during the occupancy;
    and [checkCondition1] never writes [RESET_PIN] HIGH, in this occupancy
    or in any other run. *)
Theorem mute_first_reset_never
    (s : State) (t0 : Z) (v0 : Q) (pre : list (Z * Q))
    (t : Z) (v : Q) (post : list (Z * Q)) :
  Idle V1_MUTE s -> stamp t0 <> 0 ->
  Forall (fun o => inBand V1.VOLTAGE_LOW_1 V1.VOLTAGE_HIGH_1 (snd o) = true)
         ((t0, v0) :: pre ++ (t, v) :: post) ->
  Forall (fun o => (fst o - t0) mod 2 ^ 32 < V1.DURATION_THRESHOLD_1) pre ->
  V1.DURATION_THRESHOLD_1 <= (t - t0) mod 2 ^ 32 ->
  (forall i,
      let s' := runBand V1.checkCondition1 ((t0, v0) :: take i pre) s in
      condition1Active s' = false /\ trace s' = trace s)
  /\ (let s' := runBand V1.checkCondition1 ((t0, v0) :: pre ++ [(t, v)]) s in
      condition1Active s' = true
      /\ trace s' = trace s ++ [DigitalWrite V1.MUTE_PIN HIGH])
  /\ (let s' := runBand V1.checkCondition1 ((t0, v0) :: pre ++ (t, v) :: post) s in
      condition1Active s' = true
      /\ trace s' = trace s ++ [DigitalWrite V1.MUTE_PIN HIGH])
  /\ (forall obs s0,
         exists evs,
           trace (runBand V1.checkCondition1 obs s0) = trace s0 ++ evs
           /\ ~ In (DigitalWrite V1.RESET_PIN HIGH) evs).
Proof.
  intros HI Ht0 Hobs Hpre Ht.
  assert (Hpre' : Forall (fun o => held V1_MUTE t0 (fst o) = false) pre).
  { eapply List.Forall_impl; [|exact Hpre]. intros o Ho. cbv beta in Ho.
    unfold held. rewrite usub_stamp. apply Z.leb_gt. exact Ho. }
  assert (Ht' : held V1_MUTE t0 t = true).
  { unfold held. rewrite usub_stamp. apply Z.leb_le. exact Ht. }
  destruct (latch_at_first_held V1_MUTE s t0 v0 pre t v post V1_MUTE_ok
              HI Ht0 Hobs Hpre' Ht') as (H1 & H2 & H3).
  repeat split; try apply H1; try apply H2; try apply H3.
  intros obs s0.
  destruct (run_events V1_MUTE obs s0 V1_MUTE_ok) as (evs & T & Hevs).
  exists evs. split; [exact T|].
  intros Hin. rewrite List.Forall_forall in Hevs. specialize (Hevs _ Hin).
  cbn in Hevs. intuition discriminate.
Qed.

Lemma mute_first_reset_never_witness :
  let s' := runBand V1.checkCondition1
              ([(5000, (15 # 4)%Q)] ++ [(5010, (15 # 4)%Q)] ++ [(8005, (15 # 4)%Q)])
              V1.init in
  condition1Active s' = true
  /\ trace s' = trace V1.init ++ [DigitalWrite V1.MUTE_PIN HIGH].
Proof.
  refine (proj1 (proj2 (mute_first_reset_never V1.init 5000 (15 # 4)%Q
            [(5010, (15 # 4)%Q)] 8005 (15 # 4)%Q [] _ _ _ _ _))).
  - split; reflexivity.
  - vm_compute. discriminate.
  - repeat constructor.
  - repeat constructor.
  - vm_compute. discriminate.
Defined.

(** ** Band logic: one activation and one release per occupancy *)

(** In-band ticks at which the clock reads 0 leave an idle band idle: the
    entry time they record is the value that stands for no entry. *)
Lemma run_zero_stamps B obs : forall s,
  BandOk B -> Idle B s ->
  Forall (fun o => stamp (fst o) = 0) obs ->
  Forall (fun o => within B (snd o) = true) obs ->
  Idle B (runBand (step B) obs s) /\ trace (runBand (step B) obs s) = trace s.
Proof.
  induction obs as [|[t v] obs IH]; intros s Hok HI Hz Hobs.
  - now split.
  - apply Forall_cons in Hz as [Ht Hz]. apply Forall_cons in Hobs as [Hv Hobs].
    cbn [fst snd] in Ht, Hv. rewrite (runBand_cons B). cbn [fst snd].
    assert (HI' : Idle B (observe t v s)).
    { destruct HI. split;
        [now rewrite (ok_observe_active B Hok)|now rewrite (ok_observe_start B Hok)]. }
    destruct (step_enter B Hok (observe t v s) Hv HI') as (A & S & T).
    change (millis (observe t v s)) with (stamp t) in S.
    change (trace (observe t v s)) with (trace s) in T.
    rewrite Ht in S.
    destruct (IH (step B (observe t v s)) Hok (conj A S) Hz Hobs) as [HI2 T2].
    split; [exact HI2|now rewrite T2].
Qed.

(** The calls of a latch and of a release, for every band: a latch writes
    the band's pin to its active level and at most waits; a release writes
    the pin to the opposite level and, in the first sketch's MUTE band, also
    writes [RESET_PIN] low. *)
Lemma band_events B :
  In B bands ->
  exists pin level more extra,
    In (pin, level) (outputs B)
    /\ onLatch B = DigitalWrite pin level :: more
    /\ Forall (fun e => exists ms, e = Delay ms) more
    /\ onRelease B = DigitalWrite pin (inactive level) :: extra
    /\ Forall (fun e => exists p, p <> pin /\ e = DigitalWrite p LOW) extra.
Proof.
  cbn [In bands]. intros [<-|[<-|[<-|[<-|[<-|[<-|[]]]]]]]; cbn;
    do 4 eexists;
    (split; [left; reflexivity|]);
    (split; [reflexivity|]);
    (split; [repeat constructor; eauto|]);
    (split; [reflexivity|]);
    repeat constructor.
  exists V1.RESET_PIN. split; [discriminate|reflexivity].
Qed.

(** C2, as stated, fails for a press shorter than the hold time: PREV band
    of the first sketch, in-band ticks at 5000 and 5100 ms, out of band at
    5200 ms; [PREV_PIN] is never written, so the output goes active zero
    times, not once. *)
Lemma short_press_never_activates :
  let obs := [(5000, (19 # 8)%Q); (5100, (19 # 8)%Q)] in
  let s2 := runBand V1.checkCondition2 (obs ++ [(5200, 2%Q)]) V1.init in
  Idle V1_PREV V1.init
  /\ Forall (fun o => within V1_PREV (snd o) = true) obs
  /\ within V1_PREV 2%Q = false
  /\ trace s2 = trace V1.init
  /\ pinLevel V1.PREV_PIN (trace s2) = None.
Proof.
  vm_compute. repeat split; repeat constructor.
Qed.

(** C2, amended. For every band of either sketch and every occupancy that
    starts from the idle band and ends with a tick outside the band.  The
    occupancy is entered at its first tick [t0] at which the clock is not 0
    (as an [unsigned long]); it reaches the hold time when a later in-band
    tick [t] has [(t - t0) mod 2^32 >= T].  If it does, the calls of the
    occupancy are exactly those of one latch followed, on the exiting tick,
    by those of one release: the band's pin is written once to its active
    level and once back; if it does not, nothing is written at all.  A tick
    that finds the band latched in the band, or not latched outside it,
    writes nothing. *)
Theorem occupancy_writes_once_iff_held
    (B : Band) (s : State) (zeros entered : list (Z * Q)) (t : Z) (v : Q) :
  In B bands ->
  Idle B s ->
  Forall (fun o => stamp (fst o) = 0) zeros ->
  (forall o, head entered = Some o -> stamp (fst o) <> 0) ->
  Forall (fun o => within B (snd o) = true) (zeros ++ entered) ->
  within B v = false ->
  let reached :=
    match entered with
    | [] => false
    | o0 :: rest =>
        existsb (fun o => hold B <=? (fst o - fst o0) mod 2 ^ 32) rest
    end in
  let s1 := runBand (step B) (zeros ++ entered) s in
  let s2 := runBand (step B) ((zeros ++ entered) ++ [(t, v)]) s in
  active B s1 = reached
  /\ trace s1 = trace s ++ (if reached then onLatch B else [])
  /\ Idle B s2
  /\ trace s2 = trace s ++ (if reached then onLatch B ++ onRelease B else [])
  /\ (exists pin level more extra,
         In (pin, level) (outputs B)
         /\ onLatch B = DigitalWrite pin level :: more
         /\ Forall (fun e => exists ms, e = Delay ms) more
         /\ onRelease B = DigitalWrite pin (inactive level) :: extra
         /\ Forall (fun e => exists p, p <> pin /\ e = DigitalWrite p LOW) extra)
  /\ (forall x, active B x = true -> within B (filteredVoltage x) = true ->
                trace (step B x) = trace x)
  /\ (forall x, active B x = false -> within B (filteredVoltage x) = false ->
                trace (step B x) = trace x).
Proof.
  intros HB HI Hz Hhead Hobs Hv. cbv zeta.
  pose proof (bands_ok B HB) as Hok.
  apply Forall_app in Hobs as [Hobs_z Hobs_e].
  destruct (run_zero_stamps B zeros s Hok HI Hz Hobs_z) as [HIz Tz].
  set (reached := match entered with
                  | [] => false
                  | o0 :: rest =>
                      existsb (fun o => hold B <=? (fst o - fst o0) mod 2 ^ 32) rest
                  end).
  assert (H1 : active B (runBand (step B) (zeros ++ entered) s) = reached
               /\ trace (runBand (step B) (zeros ++ entered) s)
                  = trace s ++ (if reached then onLatch B else [])).
  { rewrite (runBand_app B). subst reached.
    destruct entered as [|[t0 v0] rest].
    - cbn [runBand fold_left]. fold (runBand (step B) zeros s).
      destruct HIz as [A _]. rewrite A, Tz, app_nil_r. now split.
    - assert (Ht0 : stamp t0 <> 0) by (apply (Hhead (t0, v0)); reflexivity).
      destruct (run_idle B Hok t0 v0 rest _ Hobs_e HIz Ht0) as (A & _ & T).
      cbn [fst].
      rewrite (existsb_ext_Forall
                 (fun o => hold B <=? (fst o - t0) mod 2 ^ 32)
                 (fun o => held B t0 (fst o)) rest).
      + rewrite A, T, Tz. now split.
      + apply List.Forall_forall. intros o _. unfold held.
        now rewrite usub_stamp. }
  destruct H1 as [A1 T1].
  split; [exact A1|]. split; [exact T1|].
  rewrite (runBand_app B _ [(t, v)]). cbn [runBand fold_left fst snd].
  fold (runBand (step B) (zeros ++ entered) s).
  set (s1 := runBand (step B) (zeros ++ entered) s) in *.
  destruct (step_outside B Hok (observe t v s1) Hv) as (HI2 & T2).
  rewrite (ok_observe_active B Hok), A1 in T2.
  change (trace (observe t v s1)) with (trace s1) in T2.
  split; [exact HI2|]. split; [|split; [|split]].
  - rewrite T2, T1. destruct reached; now rewrite <- app_assoc.
  - apply (band_events B HB).
  - intros x Hx Hin. now apply (step_latched B Hok).
  - intros x Hx Hout. destruct (step_outside B Hok x Hout) as (_ & T).
    now rewrite T, Hx, app_nil_r.
Qed.

Lemma occupancy_writes_once_iff_held_witness :
  let s2 := runBand (step V2_PREV)
              (([(2 ^ 32, (21 # 8)%Q)]
                ++ [(2 ^ 32 + 10, (21 # 8)%Q); (2 ^ 32 + 200, (21 # 8)%Q);
                    (2 ^ 32 + 310, (21 # 8)%Q)])
               ++ [(2 ^ 32 + 400, 3%Q)]) V2.init in
  Idle V2_PREV s2
  /\ trace s2
     = trace V2.init
       ++ [DigitalWrite V2.PREV_PIN HIGH; Delay V2.DURATION_THRESHOLD_2;
           DigitalWrite V2.PREV_PIN LOW].
Proof.
  refine (let H := occupancy_writes_once_iff_held V2_PREV V2.init
                     [(2 ^ 32, (21 # 8)%Q)]
                     [(2 ^ 32 + 10, (21 # 8)%Q); (2 ^ 32 + 200, (21 # 8)%Q);
                      (2 ^ 32 + 310, (21 # 8)%Q)]
                     (2 ^ 32 + 400) 3%Q _ _ _ _ _ _ in
          conj (proj1 (proj2 (proj2 H))) (proj1 (proj2 (proj2 (proj2 H))))).
  - cbn. tauto.
  - split; reflexivity.
  - repeat constructor.
  - intros o Ho. injection Ho as <-. vm_compute. discriminate.
  - repeat constructor.
  - reflexivity.
Defined.

(** ** Band logic: an entry at clock value 0 *)

(** C10. In every band of either sketch: if the clock reads 0 (as an
    [unsigned long]) at the first in-band tick [t0] of an idle band, the
    band is still idle after that tick, its timer holding 0; the next
    in-band tick [t1], with a non-zero clock, records the entry again, and
    the band latches at the first later tick [t] with [t - t1 >= T]: the
    hold time runs from [t1], not from [t0]. *)
Theorem zero_stamp_entry_is_recorded_again
    (B : Band) (s : State) (t0 : Z) (v0 : Q) (t1 : Z) (v1 : Q)
    (obs : list (Z * Q)) :
  In B bands ->
  Idle B s -> stamp t0 = 0 -> stamp t1 <> 0 ->
  Forall (fun o => within B (snd o) = true) ((t0, v0) :: (t1, v1) :: obs) ->
  let reached := existsb (fun o => held B t1 (fst o)) obs in
  let s0 := runBand (step B) [(t0, v0)] s in
  let s1 := runBand (step B) [(t0, v0); (t1, v1)] s in
  let s' := runBand (step B) ((t0, v0) :: (t1, v1) :: obs) s in
  Idle B s0 /\ trace s0 = trace s
  /\ Pending B s1 /\ start B s1 = stamp t1
  /\ active B s' = reached
  /\ trace s' = trace s ++ (if reached then onLatch B else []).
Proof.
  intros HB HI Ht0 Ht1 Hobs. cbv zeta.
  pose proof (bands_ok B HB) as Hok.
  inversion Hobs as [|? ? Hv0 Hobs']; subst. cbn [snd] in Hv0.
  assert (HI' : Idle B (observe t0 v0 s)).
  { destruct HI. split;
      [now rewrite (ok_observe_active B Hok)|now rewrite (ok_observe_start B Hok)]. }
  destruct (step_enter B Hok (observe t0 v0 s) Hv0 HI') as (A0 & S0 & T0).
  change (millis (observe t0 v0 s)) with (stamp t0) in S0.
  change (trace (observe t0 v0 s)) with (trace s) in T0.
  rewrite Ht0 in S0.
  assert (HI0 : Idle B (step B (observe t0 v0 s))) by (now split).
  change (runBand (step B) [(t0, v0)] s) with (step B (observe t0 v0 s)).
  rewrite !(runBand_cons B (t0, v0)). cbn [fst snd].
  destruct (run_idle B Hok t1 v1 [] _ ltac:(inversion Hobs'; repeat constructor; assumption) HI0 Ht1)
    as (A1 & S1 & T1).
  destruct (run_idle B Hok t1 v1 obs _ Hobs' HI0 Ht1) as (A & S & T).
  cbn in A1. rewrite T0 in T.
  repeat split; auto.
  - now rewrite S1.
Qed.

Lemma zero_stamp_entry_is_recorded_again_witness :
  let t0 := 2 ^ 32 in
  let s1 := runBand V1.checkCondition1
              [(t0, (15 # 4)%Q); (t0 + 20, (15 # 4)%Q)] V1.init in
  Pending V1_MUTE s1 /\ startTime1 s1 = 20.
Proof.
  intros t0.
  refine (let H := zero_stamp_entry_is_recorded_again V1_MUTE V1.init
                     t0 (15 # 4)%Q (t0 + 20) (15 # 4)%Q [] _ _ _ _ _ in
          conj (proj1 (proj2 (proj2 H))) (proj1 (proj2 (proj2 (proj2 H))))).
  - cbn. tauto.
  - split; reflexivity.
  - reflexivity.
  - vm_compute. discriminate.
  - repeat constructor.
Defined.

(** ** Second sketch: the blocking delay of a latch *)

Lemma delayed_step_clock B s :
  In B delayedBands ->
  clock (step B s)
  = clock s + (if within B (filteredVoltage s) && negb (active B s)
                  && negb (start B s =? 0)
                  && (hold B <=? usub (millis s) (start B s))
               then V2.DURATION_THRESHOLD_2 else 0).
Proof.
  cbn; intros [<-|[<-|[<-|[]]]]; band_unfold; band_cases s; cbn; lia.
Qed.

(** C7. In the second sketch, for each of the three bands: the call that
    takes the band from pending to latched writes the output to its active
    level, then blocks in [delay(300)], and only then returns, 300 ms later;
    nothing else happens in between, and no call of a band function ever
    turns the clock back, so every later evaluation of any band happens at
    least 300 ms after the write. *)
Theorem latch_blocks_for_300ms (B : Band) (s : State) :
  In B delayedBands ->
  Pending B s ->
  within B (filteredVoltage s) = true ->
  hold B <= usub (millis s) (start B s) ->
  (exists pin level,
      outputs B = [(pin, level)]
      /\ trace (step B s)
         = trace s ++ [DigitalWrite pin level; Delay V2.DURATION_THRESHOLD_2])
  /\ Latched B (step B s)
  /\ clock (step B s) = clock s + V2.DURATION_THRESHOLD_2
  /\ V2.DURATION_THRESHOLD_2 = 300
  /\ (forall B' x, In B' delayedBands -> clock x <= clock (step B' x)).
Proof.
  intros HB HP Hv Hh.
  pose proof (bands_ok B (delayed_is_band B HB)) as Hok.
  destruct (step_pending B Hok s Hv HP) as (A & _ & T).
  apply Z.leb_le in Hh. rewrite Hh in A, T.
  split; [|split; [exact A|split; [|split; [reflexivity|]]]].
  - rewrite T. revert HB. cbn.
    intros [<-|[<-|[<-|[]]]]; do 2 eexists; split; reflexivity.
  - rewrite (delayed_step_clock B s HB), Hv, Hh.
    destruct HP as [Ha Hs]. rewrite Ha.
    destruct (Z.eqb_spec (start B s) 0); [contradiction|reflexivity].
  - intros B' x HB'. rewrite (delayed_step_clock B' x HB').
    destruct (_ && _); unfold V2.DURATION_THRESHOLD_2; lia.
Qed.

Lemma latch_blocks_for_300ms_witness :
  let s := observe 9000 (15 # 8)%Q
             (runBand V2.checkCondition3 [(8500, (15 # 8)%Q)] V2.init) in
  Latched V2_NEXT (V2.checkCondition3 s)
  /\ clock (V2.checkCondition3 s) = 9000 + V2.DURATION_THRESHOLD_2.
Proof.
  intros s.
  refine (let H := latch_blocks_for_300ms V2_NEXT s _ _ _ _ in
          conj (proj1 (proj2 H)) (proj1 (proj2 (proj2 H)))).
  - cbn. tauto.
  - split; [reflexivity|vm_compute; discriminate].
  - reflexivity.
  - vm_compute. discriminate.
Defined.

(** ** The loop, band by band *)

Lemma step_bands_V1 y :
  step V1_MUTE y = V1.checkCondition1 y
  /\ step V1_PREV y = V1.checkCondition2 y
  /\ step V1_NEXT y = V1.checkCondition3 y.
Proof. repeat split. Qed.

Lemma step_bands_V2 y :
  step V2_POWER y = V2.checkCondition1 y
  /\ step V2_PREV y = V2.checkCondition2 y
  /\ step V2_NEXT y = V2.checkCondition3 y.
Proof. repeat split. Qed.

Lemma loop_iteration K sample s :
  In K sketches -> loopOf K sample s = iteration K sample s.
Proof.
  intros HK. unfold sketches in HK. cbn [In] in HK.
  destruct HK as [<-|[<-|[]]];
    cbv [loopOf sketch1 sketch2 iteration beforeBand order pause bufferSize
         firstn fold_left length].
  - rewrite (proj2 (proj2 (step_bands_V1 _))), (proj1 (proj2 (step_bands_V1 _))),
      (proj1 (step_bands_V1 _)).
    unfold V1.loop, V1.readVoltage. reflexivity.
  - rewrite (proj2 (proj2 (step_bands_V2 _))), (proj1 (proj2 (step_bands_V2 _))),
      (proj1 (step_bands_V2 _)).
    unfold V2.loop, V2.readVoltage. reflexivity.
Qed.

Lemma run_iteration K ins : forall s,
  In K sketches -> run (loopOf K) ins s = run (iteration K) ins s.
Proof.
  induction ins as [|i ins IH]; intros s HK; [reflexivity|].
  cbn [run fold_left]. rewrite (loop_iteration K _ _ HK).
  apply (IH _ HK).
Qed.

Lemma pinLevel_skip pin tr evs :
  Forall (fun e => writes pin e = false) evs ->
  pinLevel pin (tr ++ evs) = pinLevel pin tr.
Proof.
  intros H. rewrite pinLevel_app. generalize (pinLevel pin tr).
  induction H as [|e evs He _ IH]; intros cur; [reflexivity|].
  cbn [fold_left]. destruct e as [p l|ms]; [|apply IH].
  cbn in He. rewrite He. apply IH.
Qed.

Lemma emitted_cases B x :
  emitted B x = onLatch B \/ emitted B x = onRelease B \/ emitted B x = [].
Proof.
  unfold emitted.
  repeat match goal with
         | |- context [if ?c then _ else _] => destruct c
         end; auto.
Qed.

Lemma order_in_bands K B : In K sketches -> In B (order K) -> In B bands.
Proof. cbn. intros [<-|[<-|[]]]; cbn; tauto. Qed.

Lemma order_lookup_in_bands K k B :
  In K sketches -> order K !! k = Some B -> In B bands.
Proof.
  intros HK Hk. apply (order_in_bands K B HK).
  apply list_elem_of_In. eapply list_elem_of_lookup_2. exact Hk.
Qed.

Ltac foreign_tac :=
  split;
  [ intros x; split; band_unfold; band_cases x
  | cbn; intros e p He Hp;
    repeat (destruct He as [<-|He]); try destruct He;
    repeat (destruct Hp as [<-|Hp]); try destruct Hp; reflexivity ].

(** Two different bands of one sketch do not interfere. *)
Lemma foreign_positions K k k' B B' :
  In K sketches ->
  order K !! k = Some B -> order K !! k' = Some B' -> k <> k' ->
  Foreign B B'.
Proof.
  intros HK. unfold sketches in HK. cbn [In] in HK.
  destruct HK as [<-|[<-|[]]];
    (destruct k as [|[|[|k]]]; cbn; intros Hk; try discriminate Hk;
     injection Hk as <-);
    (destruct k' as [|[|[|k']]]; cbn; intros Hk' Hne; try discriminate Hk';
     try (exfalso; apply Hne; reflexivity); injection Hk' as <-);
    foreign_tac.
Qed.

Lemma sameBand_refl B s : sameBand B s s.
Proof. repeat split. Qed.

Lemma sameBand_trans B s1 s2 s3 :
  sameBand B s1 s2 -> sameBand B s2 s3 -> sameBand B s1 s3.
Proof.
  intros (A1 & S1 & P1) (A2 & S2 & P2). repeat split; try congruence.
  intros p Hp. now rewrite (P1 p Hp), (P2 p Hp).
Qed.

Lemma sameBand_sym B s1 s2 : sameBand B s1 s2 -> sameBand B s2 s1.
Proof.
  intros (A1 & S1 & P1). repeat split; try congruence.
  intros p Hp. now rewrite (P1 p Hp).
Qed.

(** A foreign band function changes nothing of the band. *)
Lemma foreign_step B B' x :
  Foreign B B' -> BandOk B' -> sameBand B (step B' x) x.
Proof.
  intros [Hf Hw] Hok. destruct (Hf x) as [A S]. repeat split; auto.
  intros p Hp. rewrite (ok_trace B' Hok). apply pinLevel_skip.
  apply List.Forall_forall. intros e He. apply (Hw e p); [|exact Hp].
  apply in_or_app.
  destruct (emitted_cases B' x) as [E|[E|E]]; rewrite E in He;
    [now left|now right|destruct He].
Qed.

Lemma foreign_fold B L : forall x,
  Forall (fun B' => Foreign B B' /\ BandOk B') L ->
  sameBand B (fold_left (fun x B' => step B' x) L x) x.
Proof.
  induction L as [|B' L IH]; intros x HL; [apply sameBand_refl|].
  inversion HL as [|? ? [Hf Hok] HL']; subst. cbn [fold_left].
  eapply sameBand_trans; [apply (IH _ HL')|now apply foreign_step].
Qed.

Lemma bands_fold_filterOf L : forall x,
  Forall (fun B => In B bands) L ->
  filterOf (fold_left (fun x B => step B x) L x) = filterOf x.
Proof.
  induction L as [|B L IH]; intros x HL; [reflexivity|].
  inversion HL as [|? ? HB HL']; subst. cbn [fold_left].
  rewrite (IH _ HL'). now apply step_filterOf.
Qed.

(** The band function of [B] acts alike on two states that agree on the
    band, the clock and the filtered voltage. *)
Lemma step_sameBand B x y :
  BandOk B -> sameBand B x y ->
  millis x = millis y -> filteredVoltage x = filteredVoltage y ->
  sameBand B (step B x) (step B y).
Proof.
  intros Hok (A & S & P) Hm Hv.
  assert (E : emitted B x = emitted B y)
    by (unfold emitted; now rewrite A, S, Hm, Hv).
  repeat split.
  - rewrite !(ok_active B Hok). unfold nextActive. now rewrite A, S, Hm, Hv.
  - rewrite !(ok_start B Hok). unfold nextStart. now rewrite A, S, Hm, Hv.
  - intros p Hp. rewrite !(ok_trace B Hok), !pinLevel_app, E. now rewrite (P p Hp).
Qed.

Lemma in_take {A} k (l : list A) x : In x (take k l) -> In x l.
Proof.
  revert l. induction k as [|k IH]; intros [|y l] H; try destruct H.
  - now left.
  - right. now apply IH.
Qed.

(** Reading a sample, waiting and the passing of time change nothing of a
    band. *)
Lemma readVoltage_sameBand B n sample s :
  In B bands -> sameBand B (readVoltage n sample s) s.
Proof. cbn; intros [<-|[<-|[<-|[<-|[<-|[<-|[]]]]]]]; repeat split. Qed.

Lemma elapse_sameBand B lag s : In B bands -> sameBand B (elapse lag s) s.
Proof. cbn; intros [<-|[<-|[<-|[<-|[<-|[<-|[]]]]]]]; repeat split. Qed.

Lemma delay_sameBand B ms s : In B bands -> sameBand B (delay ms s) s.
Proof.
  intros HB.
  assert (Hp : forall p, pinLevel p (trace (delay ms s)) = pinLevel p (trace s))
    by (intros p; apply pinLevel_skip; now repeat constructor).
  revert HB. cbn [In bands].
  intros [<-|[<-|[<-|[<-|[<-|[<-|[]]]]]]]; repeat split; intros; apply Hp.
Qed.

Section SketchFacts.

Variable K : Sketch.
Hypothesis HK : In K sketches.

Lemma order_split k B :
  order K !! k = Some B ->
  Forall (fun B' => Foreign B B' /\ BandOk B') (take k (order K))
  /\ Forall (fun B' => Foreign B B' /\ BandOk B') (drop (S k) (order K)).
Proof.
  intros Hk. split; apply Forall_lookup; intros j B' Hj.
  - apply lookup_take_Some in Hj as [Hj Hlt]. split.
    + apply (foreign_positions K k j B B' HK Hk Hj). lia.
    + apply bands_ok, (order_lookup_in_bands K j B' HK Hj).
  - rewrite lookup_drop in Hj. split.
    + apply (foreign_positions K k (S k + j) B B' HK Hk Hj). lia.
    + apply bands_ok, (order_lookup_in_bands K (S k + j) B' HK Hj).
Qed.

Lemma order_all_bands L :
  (forall B, In B L -> In B (order K)) -> Forall (fun B => In B bands) L.
Proof.
  intros H. apply List.Forall_forall. intros B HB.
  apply (order_in_bands K B HK), H, HB.
Qed.

(** Before its call in an iteration, band number [k] is as it was when the
    iteration began, and it sees the voltage just filtered. *)
Lemma beforeBand_sameBand k B sample s :
  order K !! k = Some B ->
  sameBand B (beforeBand K k sample s) s
  /\ filterOf (beforeBand K k sample s)
     = filterOf (readVoltage (bufferSize K) sample s).
Proof.
  intros Hk. destruct (order_split k B Hk) as [Hpre _]. unfold beforeBand. split.
  - eapply sameBand_trans; [apply (foreign_fold B _ _ Hpre)|].
    apply readVoltage_sameBand, (order_lookup_in_bands K k B HK Hk).
  - apply bands_fold_filterOf, order_all_bands.
    intros B' HB'. eapply in_take. exact HB'.
Qed.

(** After the iteration, band number [k] is as its own function left it. *)
Lemma iteration_sameBand k B sample s :
  order K !! k = Some B ->
  sameBand B (iteration K sample s) (step B (beforeBand K k sample s)).
Proof.
  intros Hk. destruct (order_split k B Hk) as [_ Hpost].
  unfold iteration, beforeBand.
  rewrite firstn_all.
  rewrite <- (take_drop_middle (order K) k B Hk) at 1.
  rewrite fold_left_app. cbn [fold_left].
  eapply sameBand_trans; [|apply (foreign_fold B _ _ Hpost)].
  apply delay_sameBand, (order_lookup_in_bands K k B HK Hk).
Qed.

End SketchFacts.

Lemma observe_sameBand B t v s : BandOk B -> sameBand B (observe t v s) s.
Proof.
  intros Hok. repeat split;
    [apply (ok_observe_active B Hok)|apply (ok_observe_start B Hok)].
Qed.

Lemma run_sameBand K k B ins : forall s sb,
  In K sketches -> order K !! k = Some B ->
  sameBand B s sb ->
  sameBand B (run (loopOf K) ins s)
             (runBand (step B) (observations K k ins s) sb).
Proof.
  induction ins as [|i ins IH]; intros s sb HK Hk Hs; [exact Hs|].
  pose proof (order_lookup_in_bands K k B HK Hk) as HB.
  pose proof (bands_ok B HB) as Hok.
  cbn [run fold_left observations runBand fst snd].
  apply (IH _ _ HK Hk).
  rewrite (loop_iteration K _ _ HK).
  eapply sameBand_trans; [apply (iteration_sameBand K HK k B _ _ Hk)|].
  destruct (beforeBand_sameBand K HK k B (raw i) (elapse (lag i) s) Hk) as [Hb _].
  apply (step_sameBand B _ _ Hok); [|reflexivity|reflexivity].
  eapply sameBand_trans; [exact Hb|].
  eapply sameBand_trans; [apply (elapse_sameBand B _ _ HB)|].
  eapply sameBand_trans; [exact Hs|].
  apply sameBand_sym, (observe_sameBand B _ _ _ Hok).
Qed.

Lemma observations_voltages K k ins : forall s,
  In K sketches ->
  List.map snd (observations K k ins s)
  = List.map snd (observations K 0 ins s).
Proof.
  induction ins as [|i ins IH]; intros s HK; [reflexivity|].
  cbn [observations List.map snd]. f_equal; [|apply (IH _ HK)].
  assert (E : filterOf (beforeBand K k (raw i) (elapse (lag i) s))
              = filterOf (beforeBand K 0 (raw i) (elapse (lag i) s))).
  { unfold beforeBand. rewrite !bands_fold_filterOf; [reflexivity| |].
    - constructor.
    - apply (order_all_bands K HK). intros B HB. eapply in_take. exact HB. }
  unfold filterOf in E. now injection E.
Qed.

(** X1. What [loop] does to a band is what the band's own function does
    when run alone on the band's observations: for each band of either
    sketch and every run of [loop], the flag, the timer and the levels of
    the band's pins are those of the band function run on the clock values
    and filtered voltages it was called with; the other bands play no part,
    and all bands of a sketch see the same voltages. *)
Theorem loop_runs_each_band_alone
    (K : Sketch) (k : nat) (B : Band) (ins : list Input) (s : State) :
  In K sketches -> order K !! k = Some B ->
  let s' := run (loopOf K) ins s in
  let sb := runBand (step B) (observations K k ins s) s in
  active B s' = active B sb
  /\ start B s' = start B sb
  /\ (forall p, In p (List.map fst (outputs B)) ->
                pinLevel p (trace s') = pinLevel p (trace sb))
  /\ length (observations K k ins s) = length ins
  /\ (forall k', List.map snd (observations K k' ins s)
                 = List.map snd (observations K k ins s)).
Proof.
  intros HK Hk. cbv zeta.
  destruct (run_sameBand K k B ins s s HK Hk (sameBand_refl B s)) as (A & S & P).
  repeat split; auto.
  - clear. revert s. induction ins as [|i ins IH]; intros s; [reflexivity|].
    cbn [observations length]. now rewrite IH.
  - intros k'. now rewrite (observations_voltages K k' ins s HK),
      (observations_voltages K k ins s HK).
Qed.

Lemma loop_runs_each_band_alone_witness :
  let ins := [mkInput 1 491; mkInput 1 491; mkInput 1 491] in
  condition2Active (run V1.loop ins V1.init)
  = condition2Active
      (runBand V1.checkCondition2 (observations sketch1 1 ins V1.init) V1.init).
Proof.
  intros ins.
  refine (proj1 (loop_runs_each_band_alone sketch1 1 V1_PREV ins V1.init _ _)).
  - cbn. tauto.
  - reflexivity.
Defined.

(** ** The bands of a sketch do not overlap *)

Ltac disjoint_tac :=
  unfold within, inBand, Float.ge, Float.le; cbn [low high];
  rewrite !andb_true_iff, !Qle_bool_iff;
  intros [Ha Hb] [Hc Hd];
  first [ pose proof (Qle_trans _ _ _ Ha Hd) as H; vm_compute in H;
          apply H; reflexivity
        | pose proof (Qle_trans _ _ _ Hc Hb) as H; vm_compute in H;
          apply H; reflexivity ].

Lemma bands_are_disjoint_at K k k' B B' v :
  In K sketches ->
  order K !! k = Some B -> order K !! k' = Some B' -> k <> k' ->
  within B v = true -> within B' v = false.
Proof.
  intros HK Hk Hk' Hne Hv.
  destruct (within B' v) eqn:Hv'; [exfalso|reflexivity].
  revert Hk Hk' Hne Hv Hv'.
  unfold sketches in HK. cbn [In] in HK.
  destruct HK as [<-|[<-|[]]];
    (destruct k as [|[|[|k]]]; cbn [order sketch1 sketch2 lookup list_lookup];
     intros Hk; try discriminate Hk; injection Hk as <-);
    (destruct k' as [|[|[|k']]]; cbn [order sketch1 sketch2 lookup list_lookup];
     intros Hk' Hne; try discriminate Hk';
     try (exfalso; apply Hne; reflexivity); injection Hk' as <-);
    disjoint_tac.
Qed.

(** X2. The voltage bands of a sketch are pairwise disjoint, with the
    bounds as the sketch holds them (rounded to [float]): no voltage lies in
    two bands of the same sketch. *)
Theorem bands_are_disjoint
    (K : Sketch) (k k' : nat) (B B' : Band) (v : Q) :
  In K sketches ->
  order K !! k = Some B -> order K !! k' = Some B' -> k <> k' ->
  within B v = true -> within B' v = false.
Proof. apply bands_are_disjoint_at. Qed.

Lemma bands_are_disjoint_witness :
  within V2_NEXT (15 # 8)%Q = true /\ within V2_PREV (15 # 8)%Q = false.
Proof.
  split; [reflexivity|].
  apply (bands_are_disjoint sketch2 2 1 V2_NEXT V2_PREV (15 # 8)%Q).
  - cbn. tauto.
  - reflexivity.
  - reflexivity.
  - discriminate.
  - reflexivity.
Defined.

(** ** At most one band is latched *)

Lemma iteration_filterOf K sample s :
  In K sketches ->
  filterOf (iteration K sample s) = filterOf (readVoltage (bufferSize K) sample s).
Proof.
  intros HK. unfold iteration, beforeBand.
  rewrite delay_filterOf, bands_fold_filterOf; [reflexivity|].
  apply (order_all_bands K HK). intros B HB. eapply in_take. exact HB.
Qed.

(** After an iteration a latched band has the filtered voltage in its
    band. *)
Lemma iteration_latched_within K k B sample s :
  In K sketches -> order K !! k = Some B ->
  active B (iteration K sample s) = true ->
  within B (filteredVoltage (iteration K sample s)) = true.
Proof.
  intros HK Hk Ha.
  pose proof (bands_ok B (order_lookup_in_bands K k B HK Hk)) as Hok.
  destruct (iteration_sameBand K HK k B sample s Hk) as (A & _ & _).
  destruct (beforeBand_sameBand K HK k B sample s Hk) as [_ Hf].
  pose proof (iteration_filterOf K sample s HK) as Hi.
  rewrite <- Hf in Hi.
  assert (Hv : filteredVoltage (iteration K sample s)
               = filteredVoltage (beforeBand K k sample s))
    by exact (f_equal snd Hi).
  rewrite Hv. rewrite A, (ok_active B Hok) in Ha. unfold nextActive in Ha.
  destruct (within B _); [reflexivity|discriminate Ha].
Qed.

Lemma init_idle K B : In K sketches -> In B (order K) -> Idle B (initOf K).
Proof.
  cbn. intros [<-|[<-|[]]]; cbn; intros [<-|[<-|[<-|[]]]]; split; reflexivity.
Qed.

Lemma run_snoc loop ins i s :
  run loop (ins ++ [i]) s = loop (raw i) (elapse (lag i) (run loop ins s)).
Proof. unfold run. now rewrite fold_left_app. Qed.

(** X3. In every state a sketch reaches at the end of an iteration of
    [loop], whatever the samples and the times: a latched band has the
    current filtered voltage inside its band, and no two bands of the sketch
    are latched together. *)
Theorem at_most_one_band_latched
    (K : Sketch) (ins : list Input) (k k' : nat) (B B' : Band) :
  In K sketches ->
  order K !! k = Some B -> order K !! k' = Some B' -> k <> k' ->
  let s := run (loopOf K) ins (initOf K) in
  (active B s = true -> within B (filteredVoltage s) = true)
  /\ (active B s = true -> active B' s = false).
Proof.
  intros HK Hk Hk' Hne. cbv zeta.
  assert (Hin : forall j C, order K !! j = Some C ->
                active C (run (loopOf K) ins (initOf K)) = true ->
                within C (filteredVoltage (run (loopOf K) ins (initOf K))) = true).
  { intros j C Hj. destruct ins as [|i ins _] using rev_ind.
    - cbn. intros Ha. exfalso.
      assert (HC : In C (order K))
        by (apply list_elem_of_In; eapply list_elem_of_lookup_2; exact Hj).
      destruct (init_idle K C HK HC) as [Hf _]. congruence.
    - rewrite run_snoc, (loop_iteration K _ _ HK).
      apply (iteration_latched_within K j C _ _ HK Hj). }
  split; [apply (Hin k B Hk)|].
  intros Ha. destruct (active B' _) eqn:Ha'; [exfalso|reflexivity].
  pose proof (Hin k B Hk Ha) as Hv. pose proof (Hin k' B' Hk' Ha') as Hv'.
  pose proof (bands_are_disjoint_at K k k' B B' _ HK Hk Hk' Hne Hv) as Hd.
  congruence.
Qed.

Lemma at_most_one_band_latched_witness :
  let s := run (loopOf sketch2) [mkInput 1 500; mkInput 2 600] (initOf sketch2) in
  (active V2_POWER s = true -> within V2_POWER (filteredVoltage s) = true)
  /\ (active V2_POWER s = true -> active V2_NEXT s = false).
Proof.
  apply (at_most_one_band_latched sketch2 [mkInput 1 500; mkInput 2 600]
           0 2 V2_POWER V2_NEXT).
  - cbn. tauto.
  - reflexivity.
  - reflexivity.
  - discriminate.
Defined.

(** ** The [delay] calls of an iteration of [loop] *)

Lemma delays_app a b : delays (a ++ b) = delays a ++ delays b.
Proof. apply flat_map_app. Qed.

Lemma release_has_no_delay B : In B bands -> delays (onRelease B) = [].
Proof.
  cbn [In bands]. intros [<-|[<-|[<-|[<-|[<-|[<-|[]]]]]]]; reflexivity.
Qed.

(** A call of a band function waits only when it latches the band. *)
Lemma step_delays B x :
  In B bands ->
  exists evs,
    trace (step B x) = trace x ++ evs
    /\ delays evs
       = (if latchesIn B x (step B x) then delays (onLatch B) else []).
Proof.
  intros HB. pose proof (bands_ok B HB) as Hok.
  exists (emitted B x). split; [apply (ok_trace B Hok)|].
  unfold latchesIn. rewrite (ok_active B Hok). unfold nextActive, emitted.
  destruct (within B (filteredVoltage x)), (active B x); cbn [negb andb orb];
    try reflexivity.
  - destruct (negb (start B x =? 0) && (hold B <=? usub (millis x) (start B x)));
      reflexivity.
  - now apply release_has_no_delay.
Qed.

Section Delays.

Variable K : Sketch.
Hypothesis HK : In K sketches.

Lemma latchesIn_iteration k B sample s :
  order K !! k = Some B ->
  latchesIn B (beforeBand K k sample s) (step B (beforeBand K k sample s))
  = latchesIn B s (iteration K sample s).
Proof.
  intros Hk. unfold latchesIn.
  destruct (beforeBand_sameBand K HK k B sample s Hk) as [(A & _ & _) _].
  destruct (iteration_sameBand K HK k B sample s Hk) as (A' & _ & _).
  now rewrite A, A'.
Qed.

Lemma beforeBand_delays sample s k :
  (k <= length (order K))%nat ->
  exists evs,
    trace (beforeBand K k sample s) = trace s ++ evs
    /\ delays evs
       = flat_map (fun B => if latchesIn B s (iteration K sample s)
                            then delays (onLatch B) else [])
                  (take k (order K)).
Proof.
  induction k as [|k IH]; intros Hle.
  - exists []. split; [now rewrite app_nil_r|reflexivity].
  - destruct (IH ltac:(lia)) as (evs & T & D).
    destruct (lookup_lt_is_Some_2 (order K) k ltac:(lia)) as [B Hk].
    assert (E : beforeBand K (S k) sample s = step B (beforeBand K k sample s)).
    { unfold beforeBand. rewrite (take_S_r _ _ _ Hk), fold_left_app. reflexivity. }
    destruct (step_delays B (beforeBand K k sample s)
                (order_lookup_in_bands K k B HK Hk)) as (evs' & T' & D').
    exists (evs ++ evs'). split.
    + now rewrite E, T', T, app_assoc.
    + rewrite delays_app, D, D', (take_S_r _ _ _ Hk), flat_map_app.
      cbn [flat_map]. now rewrite app_nil_r, (latchesIn_iteration k B sample s Hk).
Qed.

(** The [delay] calls of an iteration: that of each band that latches in
    it, then the pause of [loop]. *)
Lemma iteration_delays sample s :
  exists evs,
    trace (iteration K sample s) = trace s ++ evs
    /\ delays evs
       = flat_map (fun B => if latchesIn B s (iteration K sample s)
                            then delays (onLatch B) else [])
                  (order K)
         ++ [pause K].
Proof.
  destruct (beforeBand_delays sample s (length (order K)) ltac:(lia))
    as (evs & T & D).
  exists (evs ++ [Delay (pause K)]). split.
  - unfold iteration. cbn [delay trace set_trace set_clock]. now rewrite T, app_assoc.
  - rewrite delays_app, D, firstn_all. reflexivity.
Qed.

(** No two bands latch in the same iteration. *)
Lemma one_latch_per_iteration k k' B B' sample s :
  order K !! k = Some B -> order K !! k' = Some B' -> k <> k' ->
  latchesIn B s (iteration K sample s) = true ->
  latchesIn B' s (iteration K sample s) = false.
Proof.
  intros Hk Hk' Hne H. unfold latchesIn in *.
  apply andb_true_iff in H as [_ Ha].
  pose proof (iteration_latched_within K k B sample s HK Hk Ha) as Hv.
  pose proof (bands_are_disjoint_at K k k' B B' _ HK Hk Hk' Hne Hv) as Hv'.
  destruct (active B' (iteration K sample s)) eqn:Ha'; [|apply andb_false_r].
  pose proof (iteration_latched_within K k' B' sample s HK Hk' Ha') as Hw.
  congruence.
Qed.

End Delays.

(** X4. The [delay] calls of one iteration of [loop].  In the first sketch
    there is exactly one, the [delay(20)] that ends the iteration.  In the
    second sketch the iteration ends with [delay(10)], preceded by one
    [delay(300)] exactly when one of the three bands latches in that
    iteration (its flag is clear before and set after), and by nothing
    otherwise; no two bands latch in the same iteration. *)
Theorem loop_delay_calls :
  (forall sample s,
      exists evs,
        trace (V1.loop sample s) = trace s ++ evs /\ delays evs = [20])
  /\ (forall sample s,
         let s' := V2.loop sample s in
         let latched :=
           existsb (fun B => latchesIn B s s') [V2_POWER; V2_PREV; V2_NEXT] in
         exists evs,
           trace s' = trace s ++ evs
           /\ delays evs = (if latched then [300; 10] else [10]))
  /\ (forall K k k' B B' sample s,
         In K sketches ->
         order K !! k = Some B -> order K !! k' = Some B' -> k <> k' ->
         latchesIn B s (loopOf K sample s) = true ->
         latchesIn B' s (loopOf K sample s) = false).
Proof.
  split; [|split].
  - intros sample s.
    assert (HK : In sketch1 sketches) by (cbn; tauto).
    destruct (iteration_delays sketch1 HK sample s) as (evs & T & D).
    exists evs. rewrite <- (loop_iteration sketch1 sample s HK) in T, D.
    split; [exact T|]. rewrite D. cbn [order sketch1 flat_map onLatch
      V1_MUTE V1_PREV V1_NEXT delays pause app].
    repeat destruct (latchesIn _ _ _); reflexivity.
  - intros sample s. cbv zeta.
    assert (HK : In sketch2 sketches) by (cbn; tauto).
    destruct (iteration_delays sketch2 HK sample s) as (evs & T & D).
    pose proof (one_latch_per_iteration sketch2 HK 0 1 V2_POWER V2_PREV sample s
                  eq_refl eq_refl ltac:(discriminate)) as D12.
    pose proof (one_latch_per_iteration sketch2 HK 0 2 V2_POWER V2_NEXT sample s
                  eq_refl eq_refl ltac:(discriminate)) as D13.
    pose proof (one_latch_per_iteration sketch2 HK 1 2 V2_PREV V2_NEXT sample s
                  eq_refl eq_refl ltac:(discriminate)) as D23.
    rewrite <- (loop_iteration sketch2 sample s HK) in T, D, D12, D13, D23.
    change (loopOf sketch2) with V2.loop in T, D, D12, D13, D23.
    exists evs. split; [exact T|]. rewrite D.
    cbn [order sketch2 flat_map existsb onLatch V2_POWER V2_PREV V2_NEXT
         delays pause app].
    destruct (latchesIn V2_POWER s (V2.loop sample s));
      destruct (latchesIn V2_PREV s (V2.loop sample s));
      destruct (latchesIn V2_NEXT s (V2.loop sample s));
      try (specialize (D12 eq_refl); discriminate D12);
      try (specialize (D13 eq_refl); discriminate D13);
      try (specialize (D23 eq_refl); discriminate D23);
      reflexivity.
  - intros K k k' B B' sample s HK Hk Hk' Hne.
    rewrite (loop_iteration K sample s HK).
    now apply (one_latch_per_iteration K HK k k').
Qed.

Lemma loop_delay_calls_witness :
  let s := set_readings (replicate 5 (15 # 8)%Q)
             (elapse 400 (runBand V2.checkCondition3 [(8500, (15 # 8)%Q)] V2.init)) in
  exists evs,
    trace (V2.loop 384 s) = trace s ++ evs /\ delays evs = [300; 10].
Proof.
  intros s.
  destruct (proj1 (proj2 loop_delay_calls) 384 s) as (evs & T & D).
  exists evs. split; [exact T|].
  assert (E : existsb (fun B => latchesIn B s (V2.loop 384 s))
                [V2_POWER; V2_PREV; V2_NEXT] = true)
    by (vm_compute; reflexivity).
  cbv zeta in D. rewrite E in D. exact D.
Defined.

(** ** The pins and the flags *)

Ltac in_events H :=
  repeat match type of H with
         | _ \/ _ => destruct H as [H|H]
         | False => destruct H
         | Delay _ = DigitalWrite _ _ => discriminate H
         | DigitalWrite _ _ = DigitalWrite _ _ => injection H as <- <-
         end.

(** The pin a band switches when it latches is one of its outputs; a latch
    leaves it at the level written, a release at the opposite one. *)
Lemma latch_pin_levels B pin level :
  In B bands -> In (DigitalWrite pin level) (onLatch B) ->
  In pin (List.map fst (outputs B))
  /\ (forall tr, pinLevel pin (tr ++ onLatch B) = Some level)
  /\ (forall tr, pinLevel pin (tr ++ onRelease B) = Some (inactive level)).
Proof.
  cbn [In bands]. intros [<-|[<-|[<-|[<-|[<-|[<-|[]]]]]]]; cbn;
    intros H; in_events H;
    (split; [tauto|split; intros tr; rewrite pinLevel_app; reflexivity]).
Qed.

(** The band's own function keeps its pin in step with its flag. *)
Lemma step_tracks B pin level x :
  In B bands -> In (DigitalWrite pin level) (onLatch B) ->
  (pinLevel pin (trace x) = Some level <-> active B x = true) ->
  (pinLevel pin (trace (step B x)) = Some level <-> active B (step B x) = true).
Proof.
  intros HB Hpin Hx. pose proof (bands_ok B HB) as Hok.
  destruct (latch_pin_levels B pin level HB Hpin) as (_ & HL & HR).
  rewrite (ok_active B Hok), (ok_trace B Hok). unfold nextActive, emitted.
  destruct (within B (filteredVoltage x)).
  - destruct (active B x); cbn [negb andb orb].
    + now rewrite app_nil_r.
    + destruct (negb (start B x =? 0) && (hold B <=? usub (millis x) (start B x))).
      * rewrite HL. tauto.
      * now rewrite app_nil_r.
  - destruct (active B x).
    + rewrite HR. split; [|discriminate]. destruct level; discriminate.
    + now rewrite app_nil_r.
Qed.

Lemma sameBand_tracks B pin level x y :
  In B bands -> In (DigitalWrite pin level) (onLatch B) ->
  sameBand B x y ->
  (pinLevel pin (trace y) = Some level <-> active B y = true) ->
  (pinLevel pin (trace x) = Some level <-> active B x = true).
Proof.
  intros HB Hpin (A & _ & P) Hy.
  destruct (latch_pin_levels B pin level HB Hpin) as (Hin & _ & _).
  now rewrite (P pin Hin), A.
Qed.

Lemma init_tracks K B pin level :
  In K sketches -> In B (order K) -> In (DigitalWrite pin level) (onLatch B) ->
  (pinLevel pin (trace (initOf K)) = Some level <-> active B (initOf K) = true).
Proof.
  cbn [In sketches]. intros [<-|[<-|[]]]; cbn [In order sketch1 sketch2];
    intros [<-|[<-|[<-|[]]]]; cbn;
    intros H; in_events H; split; discriminate.
Qed.

Lemma run_tracks K B pin level ins :
  In K sketches -> In B (order K) ->
  In (DigitalWrite pin level) (onLatch B) ->
  let s := run (loopOf K) ins (initOf K) in
  pinLevel pin (trace s) = Some level <-> active B s = true.
Proof.
  intros HK HB Hpin. cbv zeta.
  pose proof (order_in_bands K B HK HB) as HBb.
  apply list_elem_of_In, list_elem_of_lookup_1 in HB. destruct HB as [k Hk].
  induction ins as [|i ins IH] using rev_ind.
  - apply (init_tracks K B pin level HK); [|exact Hpin].
    apply list_elem_of_In. eapply list_elem_of_lookup_2. exact Hk.
  - rewrite run_snoc, (loop_iteration K _ _ HK).
    set (s := run (loopOf K) ins (initOf K)) in *.
    apply (sameBand_tracks B pin level _ _ HBb Hpin
             (iteration_sameBand K HK k B _ _ Hk)).
    apply (step_tracks B pin level _ HBb Hpin).
    destruct (beforeBand_sameBand K HK k B (raw i) (elapse (lag i) s) Hk) as [Hb _].
    apply (sameBand_tracks B pin level _ s HBb Hpin); [|exact IH].
    eapply sameBand_trans; [exact Hb|apply (elapse_sameBand B _ _ HBb)].
Qed.

(** X5. From [setup] on, at the end of every iteration of [loop] and for
    every band of either sketch, the pin the band switches is at its active
    level exactly when the band's flag is set: [MUTE_PIN], [PREV_PIN] and
    [NEXT_PIN] are HIGH, and [POWER_EN_PIN] of the second sketch is LOW,
    if and only if the band is latched. *)
Theorem pins_track_flags
    (K : Sketch) (B : Band) (pin : Z) (level : Level) (ins : list Input) :
  In K sketches -> In B (order K) ->
  In (DigitalWrite pin level) (onLatch B) ->
  let s := run (loopOf K) ins (initOf K) in
  pinLevel pin (trace s) = Some level <-> active B s = true.
Proof. apply run_tracks. Qed.

Lemma pins_track_flags_witness :
  let s := run (loopOf sketch2) [mkInput 1 809; mkInput 1 809] (initOf sketch2) in
  pinLevel V2.POWER_EN_PIN (trace s) = Some LOW <-> active V2_POWER s = true.
Proof.
  apply (pins_track_flags sketch2 V2_POWER V2.POWER_EN_PIN LOW
           [mkInput 1 809; mkInput 1 809]).
  - cbn. tauto.
  - cbn. tauto.
  - cbn. tauto.
Defined.

(** ** What a sketch writes *)

Lemma fold_events L : forall x,
  Forall BandOk L ->
  exists evs,
    trace (fold_left (fun x B => step B x) L x) = trace x ++ evs
    /\ Forall (fun e => exists B, In B L /\ In e (onLatch B ++ onRelease B)) evs.
Proof.
  induction L as [|B L IH]; intros x HL.
  - exists []. split; [now rewrite app_nil_r|constructor].
  - inversion HL as [|? ? Hok HL']; subst. cbn [fold_left].
    destruct (IH (step B x) HL') as (evs & T & Hevs).
    exists (emitted B x ++ evs). split.
    + now rewrite T, (ok_trace B Hok), app_assoc.
    + apply Forall_app. split.
      * apply List.Forall_forall. intros e He. exists B. split; [now left|].
        apply in_or_app.
        destruct (emitted_cases B x) as [E|[E|E]]; rewrite E in He;
          [now left|now right|destruct He].
      * eapply List.Forall_impl; [|exact Hevs].
        intros e (B' & HB' & He). exists B'. split; [now right|exact He].
Qed.

(** All that a run of [loop] adds to the trace are the calls of the latches
    and releases of the sketch's bands and the pauses of [loop]. *)
Lemma run_events_sketch K ins : forall s,
  In K sketches ->
  exists evs,
    trace (run (loopOf K) ins s) = trace s ++ evs
    /\ Forall (fun e => e = Delay (pause K)
                        \/ exists B, In B (order K)
                                     /\ In e (onLatch B ++ onRelease B)) evs.
Proof.
  induction ins as [|i ins IH] using rev_ind; intros s HK.
  - exists []. split; [now rewrite app_nil_r|constructor].
  - destruct (IH s HK) as (evs & T & Hevs).
    rewrite run_snoc, (loop_iteration K _ _ HK).
    set (s1 := run (loopOf K) ins s) in *.
    unfold iteration, beforeBand. rewrite firstn_all.
    destruct (fold_events (order K)
                (readVoltage (bufferSize K) (raw i) (elapse (lag i) s1)))
      as (evs' & T' & Hevs').
    { apply List.Forall_forall. intros B HB.
      apply bands_ok, (order_in_bands K B HK HB). }
    exists (evs ++ evs' ++ [Delay (pause K)]). split.
    + cbn [delay trace set_trace set_clock]. rewrite T'.
      cbn [readVoltage elapse trace set_clock set_readings set_readIndex
           set_filteredVoltage].
      rewrite T. now rewrite <- !app_assoc.
    + apply Forall_app. split; [exact Hevs|]. apply Forall_app. split.
      * eapply List.Forall_impl; [|exact Hevs']. intros e He. now right.
      * repeat constructor.
Qed.

(** X6. Whatever the samples and the times, the trace of the first sketch
    is the reset pulse of [setup] followed by calls among which
    [RESET_PIN] is never written HIGH: [loop] never resets the module.  The
    trace of the second sketch is the low pulse on [POWER_EN_PIN] followed
    by calls that never write [START_STOP_PIN]. *)
Theorem loop_never_resets (ins : list Input) :
  (exists evs,
      trace (run V1.loop ins V1.init)
      = [DigitalWrite V1.RESET_PIN HIGH; Delay V1.INITIAL_DELAY;
         DigitalWrite V1.RESET_PIN LOW] ++ evs
      /\ ~ In (DigitalWrite V1.RESET_PIN HIGH) evs)
  /\ (exists evs,
         trace (run V2.loop ins V2.init)
         = [DigitalWrite V2.POWER_EN_PIN LOW; Delay V2.INITIAL_DELAY;
            DigitalWrite V2.POWER_EN_PIN HIGH] ++ evs
         /\ Forall (fun e => writes V2.START_STOP_PIN e = false) evs).
Proof.
  split.
  - destruct (run_events_sketch sketch1 ins V1.init ltac:(cbn; tauto))
      as (evs & T & Hevs).
    exists evs. split; [exact T|].
    intros Hin. rewrite List.Forall_forall in Hevs.
    destruct (Hevs _ Hin) as [H|(B & HB & H)]; [discriminate H|].
    cbn in HB. destruct HB as [<-|[<-|[<-|[]]]]; cbn in H;
      intuition discriminate.
  - destruct (run_events_sketch sketch2 ins V2.init ltac:(cbn; tauto))
      as (evs & T & Hevs).
    exists evs. split; [exact T|].
    eapply List.Forall_impl; [|exact Hevs].
    intros e [->|(B & HB & H)]; [reflexivity|].
    cbn in HB. destruct HB as [<-|[<-|[<-|[]]]]; cbn in H;
      repeat (destruct H as [<-|H]; [reflexivity|]); destruct H.
Qed.

(** ** The buffer as a sliding window *)

Lemma chronological_filterOf x y :
  filterOf x = filterOf y -> chronological x = chronological y.
Proof.
  unfold filterOf, chronological. intros H. injection H as Hr Hi _.
  now rewrite Hr, Hi.
Qed.

Lemma length_chronological n s :
  filterOk n s -> length (chronological s) = Z.to_nat n.
Proof.
  intros [Hi Hl]. unfold chronological.
  rewrite length_app, length_drop, length_take. lia.
Qed.

(** One call drops the oldest voltage and appends the new one. *)
Lemma chronological_step n sample s :
  0 < n -> filterOk n s ->
  chronological (readVoltage n sample s)
  = drop 1 (chronological s) ++ [toVolts sample].
Proof.
  intros Hn [Hi Hl]. unfold chronological.
  cbn [readVoltage readings readIndex set_readings set_readIndex
       set_filteredVoltage].
  set (l := readings s) in *. set (i := Z.to_nat (readIndex s)).
  set (v := toVolts sample).
  assert (Hil : (i < length l)%nat) by (unfold i; lia).
  rewrite (insert_take_drop l i v Hil).
  rewrite (drop_app_le (drop i l)) by (rewrite length_drop; lia).
  rewrite drop_drop.
  assert (Ht : length (take i l ++ [v]) = S i)
    by (rewrite length_app, length_take; cbn; lia).
  destruct (Z.eq_dec (readIndex s + 1) n) as [E|E].
  - rewrite E, Z.rem_same by lia. cbn [Z.to_nat drop take].
    rewrite app_nil_r, (drop_ge l (S i)), (drop_ge l (i + 1)) by (unfold i; lia).
    reflexivity.
  - rewrite Z.rem_small by lia.
    replace (Z.to_nat (readIndex s + 1)) with (S i) by (unfold i; lia).
    rewrite (cons_middle v), app_assoc.
    rewrite (drop_app_length' _ _ (S i)), (take_app_length' _ _ (S i)) by now rewrite Ht.
    replace (i + 1)%nat with (S i) by lia. now rewrite app_assoc.
Qed.

Lemma chronological_run loop n ins : forall s,
  0 < n ->
  (forall x lag s, filterOf (loop x (elapse lag s)) = filterOf (readVoltage n x s)) ->
  filterOk n s ->
  chronological (run loop ins s)
  = drop (length ins) (chronological s ++ voltages ins).
Proof.
  induction ins as [|i ins IH] using rev_ind; intros s Hn Hloop Hok.
  - cbn. now rewrite app_nil_r.
  - rewrite run_snoc.
    rewrite (chronological_filterOf _ _ (Hloop (raw i) (lag i) (run loop ins s))).
    rewrite (chronological_step n) by (auto using run_filterOk).
    rewrite (IH s Hn Hloop Hok), drop_drop.
    unfold voltages. rewrite map_app, length_app, app_assoc. cbn [List.map length].
    symmetry. apply drop_app_le.
    rewrite length_app, length_map, (length_chronological n s Hok). lia.
Qed.

Lemma qsum_app a b : (qsum (a ++ b) == qsum a + qsum b)%Q.
Proof.
  induction a as [|x a IH].
  - change (qsum ([] ++ b)) with (qsum b). change (qsum []) with 0%Q.
    now rewrite Qplus_0_l.
  - change (qsum ((x :: a) ++ b)) with (x + qsum (a ++ b))%Q.
    change (qsum (x :: a)) with (x + qsum a)%Q.
    rewrite IH. apply Qplus_assoc.
Qed.

Lemma qsum_chronological s : (qsum (chronological s) == qsum (readings s))%Q.
Proof.
  unfold chronological. rewrite qsum_app.
  rewrite <- (take_drop (Z.to_nat (readIndex s)) (readings s)) at 3.
  rewrite qsum_app. ring.
Qed.

Lemma sketch_filter K :
  In K sketches ->
  0 < bufferSize K <= 10
  /\ (exists e, (5 == inject_Z (bufferSize K) * Float.pow2 e)%Q)
  /\ (forall x lag s, filterOf (loopOf K x (elapse lag s))
                      = filterOf (readVoltage (bufferSize K) x s))
  /\ filterOk (bufferSize K) (initOf K)
  /\ readings (initOf K) = replicate (Z.to_nat (bufferSize K)) 0%Q
  /\ readIndex (initOf K) = 0
  /\ filteredVoltage (initOf K) = 0%Q.
Proof.
  cbn [In sketches]. intros [<-|[<-|[]]]; cbn [bufferSize loopOf initOf sketch1 sketch2].
  - split; [unfold V1.numReadings; lia|]. split; [exists (-1); reflexivity|].
    split; [apply V1_loop_filterOf|].
    split; [split; [cbn; unfold V1.numReadings; lia|reflexivity]|].
    repeat split.
  - split; [unfold V2.NUM_READINGS; lia|]. split; [exists 0; reflexivity|].
    split; [apply V2_loop_filterOf|].
    split; [split; [cbn; unfold V2.NUM_READINGS; lia|reflexivity]|].
    repeat split.
Qed.

Lemma chronological_init K :
  In K sketches ->
  chronological (initOf K) = replicate (Z.to_nat (bufferSize K)) 0%Q.
Proof.
  intros HK. destruct (sketch_filter K HK) as (_ & _ & _ & _ & Hr & Hi & _).
  unfold chronological. rewrite Hr, Hi. cbn [Z.to_nat drop take].
  now rewrite app_nil_r.
Qed.

Lemma sketch_exact_mean K ins i :
  In K sketches ->
  Forall (fun i => 0 <= raw i <= ADC_MAX) (ins ++ [i]) ->
  let s' := run (loopOf K) (ins ++ [i]) (initOf K) in
  Forall isSample (readings s')
  /\ (filteredVoltage s' == qsum (readings s') / inject_Z (bufferSize K))%Q.
Proof.
  intros HK Hins.
  destruct (sketch_filter K HK) as (Hn & [e He] & Hloop & Hok & Hr & _).
  apply (run_exact_mean (loopOf K) (bufferSize K) e ins i (initOf K)); auto.
  rewrite Hr. apply Forall_replicate, zero_isSample.
Qed.

(** X7. The sample buffer is a sliding window: after any run of [loop] it
    holds, from the oldest slot (the one at the write index) to the newest,
    the voltages of the last N samples, with the zeros of [setup] standing
    for the samples not yet taken; and for samples between 0 and 1023 the
    filtered voltage is the exact mean of that window. *)
Theorem buffer_is_sliding_window (K : Sketch) (ins : list Input) (i : Input) :
  In K sketches ->
  Forall (fun i => 0 <= raw i <= ADC_MAX) (ins ++ [i]) ->
  let s' := run (loopOf K) (ins ++ [i]) (initOf K) in
  let window :=
    drop (length (ins ++ [i]))
         (replicate (Z.to_nat (bufferSize K)) 0%Q ++ voltages (ins ++ [i])) in
  chronological s' = window
  /\ length window = Z.to_nat (bufferSize K)
  /\ (filteredVoltage s' == qsum window / inject_Z (bufferSize K))%Q.
Proof.
  intros HK Hins. cbv zeta.
  destruct (sketch_filter K HK) as (Hn & _ & Hloop & Hok & _).
  assert (Hc := chronological_run (loopOf K) (bufferSize K) (ins ++ [i])
                  (initOf K) ltac:(lia) Hloop Hok).
  rewrite (chronological_init K HK) in Hc.
  split; [exact Hc|]. split.
  - rewrite <- Hc. apply length_chronological.
    apply run_filterOk; auto. lia.
  - rewrite <- Hc, qsum_chronological.
    apply (sketch_exact_mean K ins i HK Hins).
Qed.

Lemma buffer_is_sliding_window_witness :
  let s' := run (loopOf sketch2)
              ([mkInput 1 100; mkInput 1 200] ++ [mkInput 1 300]) (initOf sketch2) in
  chronological s'
  = drop (length ([mkInput 1 100; mkInput 1 200] ++ [mkInput 1 300]))
         (replicate (Z.to_nat (bufferSize sketch2)) 0%Q
          ++ voltages ([mkInput 1 100; mkInput 1 200] ++ [mkInput 1 300])).
Proof.
  apply (buffer_is_sliding_window sketch2 [mkInput 1 100; mkInput 1 200]
           (mkInput 1 300)).
  - cbn. tauto.
  - unfold ADC_MAX. repeat constructor; cbn; lia.
Defined.

Lemma qsum_replicate_same k v : (qsum (replicate k v) == inject_Z (Z.of_nat k) * v)%Q.
Proof.
  rewrite <- (app_nil_r (replicate k v)). apply (qsum_replicate k 0 v).
Qed.

Lemma voltages_same tail sample :
  Forall (fun i => raw i = sample) tail ->
  voltages tail = replicate (length tail) (toVolts sample).
Proof.
  induction 1 as [|i tail Hi _ IH]; [reflexivity|].
  cbn. unfold voltages in IH. now rewrite IH, Hi.
Qed.

Lemma settles_exactly K pre tail sample :
  In K sketches ->
  Forall (fun i => 0 <= raw i <= ADC_MAX) (pre ++ tail) ->
  Z.of_nat (length tail) = bufferSize K ->
  Forall (fun i => raw i = sample) tail ->
  (filteredVoltage (run (loopOf K) (pre ++ tail) (initOf K)) == toVolts sample)%Q.
Proof.
  intros HK Hins Hlen Htail.
  destruct (sketch_filter K HK) as (Hn & _ & Hloop & Hok & _).
  destruct tail as [|j tail' _] using rev_ind; [cbn in Hlen; lia|].
  set (tail := tail' ++ [j]) in *.
  assert (Hin' : Forall (fun i => 0 <= raw i <= ADC_MAX) ((pre ++ tail') ++ [j]))
    by (unfold tail in Hins; now rewrite <- app_assoc).
  destruct (sketch_exact_mean K (pre ++ tail') j HK Hin') as [_ Hmean].
  cbv zeta in Hmean. rewrite <- app_assoc in Hmean. fold tail in Hmean.
  rewrite Hmean, <- qsum_chronological.
  rewrite (chronological_run (loopOf K) (bufferSize K) (pre ++ tail) (initOf K)
             ltac:(lia) Hloop Hok).
  rewrite (chronological_init K HK).
  unfold voltages. rewrite map_app, app_assoc.
  rewrite drop_app_length'
    by (rewrite !length_app, length_replicate, length_map; lia).
  fold (voltages tail). rewrite (voltages_same tail sample Htail).
  rewrite qsum_replicate_same, Hlen.
  field. change 0%Q with (inject_Z 0). rewrite inject_Z_injective. lia.
Qed.

(** X8. The filter settles in N ticks: whatever was sampled before, once
    the last N samples of a run (N = 10 or 5) are the same sample, the
    filtered voltage is exactly the voltage of that sample. *)
Theorem filter_settles_in_N_ticks
    (K : Sketch) (pre tail : list Input) (sample : Z) :
  In K sketches ->
  Forall (fun i => 0 <= raw i <= ADC_MAX) (pre ++ tail) ->
  Z.of_nat (length tail) = bufferSize K ->
  Forall (fun i => raw i = sample) tail ->
  (filteredVoltage (run (loopOf K) (pre ++ tail) (initOf K)) == toVolts sample)%Q.
Proof. apply settles_exactly. Qed.

Lemma filter_settles_in_N_ticks_witness :
  (filteredVoltage
     (run (loopOf sketch2)
        ([mkInput 1 1000; mkInput 1 3]
         ++ [mkInput 1 400; mkInput 2 400; mkInput 1 400; mkInput 3 400;
             mkInput 1 400])
        (initOf sketch2))
   == toVolts 400)%Q.
Proof.
  apply (filter_settles_in_N_ticks sketch2 [mkInput 1 1000; mkInput 1 3]
           [mkInput 1 400; mkInput 2 400; mkInput 1 400; mkInput 3 400;
            mkInput 1 400] 400).
  - cbn. tauto.
  - unfold ADC_MAX. repeat constructor; cbn; lia.
  - reflexivity.
  - repeat constructor.
Defined.

(** ** The range of the filtered voltage *)

Lemma qsum_bounds l :
  Forall isSample l ->
  (0 <= qsum l /\ qsum l <= inject_Z (Z.of_nat (length l)) * (5115 # 1024))%Q.
Proof.
  induction 1 as [|x l (c & Hc & Hx) _ [IH0 IH1]].
  - cbn. split; [apply Qle_refl|discriminate].
  - change (qsum (x :: l)) with (x + qsum l)%Q.
    cbn [length]. rewrite Nat2Z.inj_succ. unfold Z.succ. rewrite inject_Z_plus.
    assert (H0 : (0 <= x)%Q).
    { rewrite Hx. unfold Qle. cbn. lia. }
    assert (H1 : (x <= 5115 # 1024)%Q).
    { rewrite Hx. unfold ADC_MAX in Hc. unfold Qle. cbn. lia. }
    split.
    + change 0%Q with (0 + 0)%Q. now apply Qplus_le_compat.
    + assert (E : ((inject_Z (Z.of_nat (length l)) + inject_Z 1) * (5115 # 1024)
                   == (5115 # 1024) + inject_Z (Z.of_nat (length l)) * (5115 # 1024))%Q)
        by ring.
      rewrite E. now apply Qplus_le_compat.
Qed.

(** X9. For samples between 0 and 1023 the filtered voltage never leaves
    the range of the conversion: after every iteration of [loop], in both
    sketches, it lies between 0 and 5115/1024 V (just under 5 V). *)
Theorem filtered_voltage_in_range (K : Sketch) (ins : list Input) :
  In K sketches ->
  Forall (fun i => 0 <= raw i <= ADC_MAX) ins ->
  let v := filteredVoltage (run (loopOf K) ins (initOf K)) in
  (0 <= v /\ v <= 5115 # 1024)%Q.
Proof.
  intros HK Hins. cbv zeta.
  destruct (sketch_filter K HK) as (Hn & _ & Hloop & Hok & _ & _ & Hf).
  destruct ins as [|i ins _] using rev_ind.
  - cbn. rewrite Hf. split; discriminate.
  - destruct (sketch_exact_mean K ins i HK Hins) as [Hsam Hmean].
    cbv zeta in Hsam, Hmean. rewrite Hmean.
    destruct (qsum_bounds _ Hsam) as [H0 H1].
    assert (Hl : length (readings (run (loopOf K) (ins ++ [i]) (initOf K)))
                 = Z.to_nat (bufferSize K))
      by (apply (run_filterOk (loopOf K) (bufferSize K)); auto; lia).
    rewrite Hl, Z2Nat.id in H1 by lia.
    assert (Hpos : (0 < inject_Z (bufferSize K))%Q)
      by (change 0%Q with (inject_Z 0); rewrite <- Zlt_Qlt; lia).
    split.
    + apply Qle_shift_div_l; [exact Hpos|]. now rewrite Qmult_0_l.
    + apply Qle_shift_div_r; [exact Hpos|]. now rewrite Qmult_comm.
Qed.

Lemma filtered_voltage_in_range_witness :
  let v := filteredVoltage
             (run (loopOf sketch1) [mkInput 1 1023; mkInput 1 0] (initOf sketch1)) in
  (0 <= v /\ v <= 5115 # 1024)%Q.
Proof.
  apply (filtered_voltage_in_range sketch1 [mkInput 1 1023; mkInput 1 0]).
  - cbn. tauto.
  - unfold ADC_MAX. repeat constructor; cbn; lia.
Defined.

(** ** The hold time across the rollover of [millis] *)

(** X10. The hold time is measured in true elapsed time, also when the
    32-bit millisecond counter rolls over during the press: for every band
    of either sketch, an occupancy entered from the idle band at a tick [t0]
    with a non-zero counter is latched after a run of in-band ticks exactly
    when one of them comes at least the hold time after [t0], as long as the
    ticks are less than 2^32 ms after [t0]. *)
Theorem hold_time_survives_rollover
    (B : Band) (s : State) (t0 : Z) (v0 : Q) (obs : list (Z * Q)) :
  In B bands ->
  Idle B s -> stamp t0 <> 0 ->
  Forall (fun o => within B (snd o) = true) ((t0, v0) :: obs) ->
  Forall (fun o => 0 <= fst o - t0 < 2 ^ 32) obs ->
  let reached := existsb (fun o => hold B <=? fst o - t0) obs in
  let s' := runBand (step B) ((t0, v0) :: obs) s in
  active B s' = reached
  /\ trace s' = trace s ++ (if reached then onLatch B else []).
Proof.
  intros HB HI Ht0 Hobs Hrange. cbv zeta.
  destruct (run_idle B (bands_ok B HB) t0 v0 obs s Hobs HI Ht0) as (A & _ & T).
  assert (E : existsb (fun o => held B t0 (fst o)) obs
              = existsb (fun o => hold B <=? fst o - t0) obs).
  { apply existsb_ext_Forall. eapply List.Forall_impl; [|exact Hrange].
    intros o Ho. cbv beta in Ho. unfold held. rewrite usub_stamp.
    unfold ULONG. now rewrite Z.mod_small. }
  rewrite E in A, T. now split.
Qed.

Lemma hold_time_survives_rollover_witness :
  let t0 := 2 ^ 32 - 100 in
  let s' := runBand (step V1_PREV)
              [(t0, (19 # 8)%Q); (t0 + 200, (19 # 8)%Q); (t0 + 350, (19 # 8)%Q)]
              V1.init in
  active V1_PREV s' = true
  /\ trace s' = trace V1.init ++ [DigitalWrite V1.PREV_PIN HIGH].
Proof.
  intros t0.
  apply (hold_time_survives_rollover V1_PREV V1.init t0 (19 # 8)%Q
           [(t0 + 200, (19 # 8)%Q); (t0 + 350, (19 # 8)%Q)]).
  - cbn. tauto.
  - split; reflexivity.
  - vm_compute. discriminate.
  - repeat constructor.
  - repeat constructor; vm_compute; discriminate.
Defined.

(** ** The filter and the bands keep apart *)

(** X11. The filter and the band logic share nothing but the filtered
    voltage, which only [readVoltage] writes: no band function of either
    sketch changes the sample buffer, the write index or the filtered
    voltage, and [readVoltage] changes no flag and no timer, and calls
    neither [digitalWrite] nor [delay]. *)
Theorem filter_and_bands_keep_apart (B : Band) (n sample : Z) (s : State) :
  In B bands ->
  filterOf (step B s) = filterOf s
  /\ active B (readVoltage n sample s) = active B s
  /\ start B (readVoltage n sample s) = start B s
  /\ trace (readVoltage n sample s) = trace s.
Proof.
  intros HB. split; [now apply step_filterOf|].
  destruct (readVoltage_sameBand B n sample s HB) as (A & S & _).
  repeat split; assumption.
Qed.

Lemma filter_and_bands_keep_apart_witness :
  filterOf (step V2_PREV (observe 7000 (21 # 8)%Q V2.init))
  = filterOf (observe 7000 (21 # 8)%Q V2.init).
Proof.
  apply (filter_and_bands_keep_apart V2_PREV 5 0 (observe 7000 (21 # 8)%Q V2.init)).
  cbn. tauto.
Defined.

(** ** A button held long enough is detected *)

Lemma step_clock_bounds B x :
  In B bands -> clock x <= clock (step B x) <= clock x + 300.
Proof.
  cbn [In bands]. intros [<-|[<-|[<-|[<-|[<-|[<-|[]]]]]]];
    band_unfold;
    repeat match goal with
           | |- context [if ?c then _ else _] => destruct c
           end; cbn; unfold V2.DURATION_THRESHOLD_2; lia.
Qed.

Lemma fold_clock_bounds L : forall x,
  Forall (fun B => In B bands) L ->
  clock x <= clock (fold_left (fun x B => step B x) L x)
          <= clock x + 300 * Z.of_nat (length L).
Proof.
  induction L as [|B L IH]; intros x HL.
  - cbn. lia.
  - inversion HL as [|? ? HB HL']; subst. cbn [fold_left length].
    pose proof (IH (step B x) HL'). pose proof (step_clock_bounds B x HB). lia.
Qed.

Lemma sketch_shape K :
  In K sketches -> length (order K) = 3%nat /\ 10 <= pause K <= 20.
Proof. cbn [In sketches]. intros [<-|[<-|[]]]; cbn; lia. Qed.

Lemma hold_bounds B : In B bands -> 300 <= hold B <= 3000.
Proof.
  cbn [In bands]. intros [<-|[<-|[<-|[<-|[<-|[<-|[]]]]]]]; cbn;
    unfold V1.DURATION_THRESHOLD_1, V2.DURATION_THRESHOLD_1,
      V2.DURATION_THRESHOLD_2; lia.
Qed.

(** What one iteration of [loop] does to band number [k]: its function is
    called once, at a time [t] between the start of the iteration and 900 ms
    later, on the voltage the iteration leaves in [filteredVoltage]. *)
Lemma iteration_summary K k B i s :
  In K sketches -> order K !! k = Some B ->
  let s' := loopOf K (raw i) (elapse (lag i) s) in
  exists t,
    clock s + lag i <= t <= clock s + lag i + 900
    /\ t + pause K <= clock s' <= t + pause K + 900
    /\ active B s'
       = (if within B (filteredVoltage s')
          then active B s
               || (negb (start B s =? 0) && (hold B <=? usub (stamp t) (start B s)))
          else false)
    /\ start B s'
       = (if within B (filteredVoltage s')
          then if negb (active B s) && (start B s =? 0) then stamp t else start B s
          else 0).
Proof.
  intros HK Hk. cbv zeta.
  pose proof (order_lookup_in_bands K k B HK Hk) as HB.
  pose proof (bands_ok B HB) as Hok.
  destruct (sketch_shape K HK) as [Hlen Hpause].
  rewrite (loop_iteration K _ _ HK).
  set (s0 := elapse (lag i) s).
  set (b := beforeBand K k (raw i) s0).
  exists (clock b).
  destruct (iteration_sameBand K HK k B (raw i) s0 Hk) as (A & S & _).
  destruct (beforeBand_sameBand K HK k B (raw i) s0 Hk) as [(Ab & Sb & _) Hf].
  destruct (elapse_sameBand B (lag i) s HB) as (Ae & Se & _).
  fold b in A, S, Ab, Sb, Hf. fold s0 in Ae, Se.
  assert (Hv : filteredVoltage (iteration K (raw i) s0) = filteredVoltage b).
  { pose proof (iteration_filterOf K (raw i) s0 HK) as Hi. rewrite <- Hf in Hi.
    exact (f_equal snd Hi). }
  assert (Hall : forall L, (forall C, In C L -> In C (order K)) ->
                           Forall (fun C => In C bands) L)
    by (intros L; apply (order_all_bands K HK)).
  assert (Hb : clock s + lag i <= clock b <= clock s + lag i + 900).
  { unfold b, beforeBand.
    pose proof (fold_clock_bounds (take k (order K))
                  (readVoltage (bufferSize K) (raw i) s0)
                  (Hall _ (fun C HC => in_take k _ C HC))) as Hc.
    assert (Hl : (length (take k (order K)) <= 3)%nat)
      by (rewrite length_take; lia).
    change (clock (readVoltage (bufferSize K) (raw i) s0)) with (clock s + lag i) in Hc.
    lia. }
  assert (Hs' : clock b + pause K <= clock (iteration K (raw i) s0)
                <= clock b + pause K + 900).
  { unfold iteration. change (clock (delay ?ms ?x)) with (clock x + ms).
    assert (E : beforeBand K (length (order K)) (raw i) s0
                = fold_left (fun x C => step C x) (drop k (order K)) b).
    { unfold b, beforeBand. rewrite firstn_all, <- fold_left_app.
      now rewrite take_drop. }
    rewrite E.
    pose proof (fold_clock_bounds (drop k (order K)) b) as Hc.
    assert (Hl : (length (drop k (order K)) <= 3)%nat)
      by (rewrite length_drop; lia).
    assert (Hd : Forall (fun C => In C bands) (drop k (order K))).
    { apply Hall. intros C HC. apply list_elem_of_In.
      apply list_elem_of_In in HC. eapply (subseteq_drop k). exact HC. }
    specialize (Hc Hd). lia. }
  split; [exact Hb|]. split; [exact Hs'|].
  rewrite A, S, Hv, (ok_active B Hok), (ok_start B Hok).
  unfold nextActive, nextStart. rewrite Ab, Sb, Ae, Se.
  now split.
Qed.

Lemma usub_true t ts :
  0 <= t - ts < 2 ^ 32 -> usub (stamp t) (stamp ts) = t - ts.
Proof. intros H. rewrite usub_stamp. unfold ULONG. now apply Z.mod_small. Qed.

Lemma stamps_differ t t1 :
  stamp t1 = 0 -> 0 < t - t1 < 2 ^ 32 -> stamp t <> 0.
Proof.
  unfold stamp, ULONG. intros H1 Hd H.
  assert (E : (t - t1) mod 2 ^ 32 = 0) by (rewrite Zminus_mod, H, H1; reflexivity).
  rewrite Z.mod_small in E; lia.
Qed.

Section Detection.

Variables (K : Sketch) (k : nat) (B : Band).
Hypothesis HK : In K sketches.
Hypothesis Hk : order K !! k = Some B.

(** The timer of a pending band always holds a recent time. *)
Lemma loop_entryTimed i s :
  0 <= lag i <= 2 ^ 31 ->
  entryTimed B 1000 s ->
  entryTimed B 1000 (loopOf K (raw i) (elapse (lag i) s)).
Proof.
  intros Hlag Hs.
  destruct (iteration_summary K k B i s HK Hk) as (t & Ht & Hc & A & S).
  pose proof (hold_bounds B (order_lookup_in_bands K k B HK Hk)) as Hh.
  destruct (sketch_shape K HK) as [_ Hp].
  unfold entryTimed in *. rewrite A, S.
  destruct (within B _); [|intros _ H; now elim H].
  destruct (active B s) eqn:Ha; [discriminate|]. cbn [orb negb andb].
  destruct (Z.eqb_spec (start B s) 0) as [E|E]; cbn [negb andb].
  - intros _ _. exists t. split; [reflexivity|lia].
  - destruct (Hs eq_refl E) as (ts & Hts & Hcl).
    rewrite Hts, usub_true by lia.
    intros Hlt _. apply Z.leb_gt in Hlt. exists ts. split; [reflexivity|lia].
Qed.

Lemma run_entryTimed ins : forall s,
  Forall (fun i => 0 <= lag i <= 2 ^ 31) ins ->
  entryTimed B 1000 s -> entryTimed B 1000 (run (loopOf K) ins s).
Proof.
  induction ins as [|i ins IH]; intros s Hins Hs; [exact Hs|].
  inversion Hins as [|? ? Hi Hins']; subst.
  cbn [run fold_left]. apply (IH _ Hins'). now apply loop_entryTimed.
Qed.

(** A first tick in the band arms it, unless the clock just read 0. *)
Lemma loop_inband_first i s :
  0 <= lag i <= 2 ^ 31 ->
  entryTimed B 1000 s ->
  let s' := loopOf K (raw i) (elapse (lag i) s) in
  within B (filteredVoltage s') = true ->
  armed B (clock s' - pause K) s'
  \/ (active B s' = false /\ start B s' = 0
      /\ exists t1, stamp t1 = 0 /\ 0 < clock s' - t1 <= 1000).
Proof.
  intros Hlag Hs. cbv zeta. intros Hv.
  destruct (iteration_summary K k B i s HK Hk) as (t & Ht & Hc & A & S).
  pose proof (hold_bounds B (order_lookup_in_bands K k B HK Hk)) as Hh.
  destruct (sketch_shape K HK) as [_ Hp].
  rewrite Hv in A, S. unfold armed.
  destruct (active B s) eqn:Ha; [left; left; exact A|]. cbn [orb negb andb] in A, S.
  destruct (Z.eqb_spec (start B s) 0) as [E|E]; cbn [negb andb] in A, S.
  - destruct (Z.eq_dec (stamp t) 0) as [Z0|Z0].
    + right. split; [exact A|]. split; [now rewrite S|]. exists t. split; [exact Z0|lia].
    + left. right. split; [exact A|]. exists t. rewrite S.
      repeat split; auto; lia.
  - destruct (Hs Ha E) as (ts & Hts & Hcl).
    rewrite Hts, usub_true in A by lia.
    destruct (Z.leb_spec (hold B) (t - ts)); [left; left; exact A|].
    left. right. split; [exact A|]. exists ts. rewrite S.
    repeat split; auto; try lia; try (now rewrite <- Hts).
Qed.

(** The tick after one that read the clock at 0 arms the band. *)
Lemma loop_inband_second i s :
  0 <= lag i <= 2 ^ 31 ->
  active B s = false -> start B s = 0 ->
  (exists t1, stamp t1 = 0 /\ 0 < clock s - t1 <= 1000) ->
  let s' := loopOf K (raw i) (elapse (lag i) s) in
  within B (filteredVoltage s') = true ->
  armed B (clock s' - pause K) s'.
Proof.
  intros Hlag Ha Hst (t1 & Ht1 & Hd). cbv zeta. intros Hv.
  destruct (iteration_summary K k B i s HK Hk) as (t & Ht & Hc & A & S).
  pose proof (hold_bounds B (order_lookup_in_bands K k B HK Hk)) as Hh.
  destruct (sketch_shape K HK) as [_ Hp].
  rewrite Hv, Ha, Hst in A, S. cbn in A, S.
  right. split; [exact A|]. exists t. rewrite S.
  repeat split; auto; try lia.
  apply (stamps_differ t t1 Ht1). lia.
Qed.

(** An armed band stays armed while the voltage stays in the band, and is
    latched by the first tick that comes the hold time after [d]. *)
Lemma loop_armed_keep d i s :
  0 <= lag i <= 2 ^ 31 ->
  armed B d s ->
  let s' := loopOf K (raw i) (elapse (lag i) s) in
  within B (filteredVoltage s') = true ->
  armed B d s'
  /\ clock s + pause K <= clock s'
  /\ (d + hold B <= clock s -> active B s' = true).
Proof.
  intros Hlag Hs. cbv zeta. intros Hv.
  destruct (iteration_summary K k B i s HK Hk) as (t & Ht & Hc & A & S).
  pose proof (hold_bounds B (order_lookup_in_bands K k B HK Hk)) as Hh.
  destruct (sketch_shape K HK) as [_ Hp].
  rewrite Hv in A, S. split; [|split; [lia|]].
  - destruct Hs as [Ha|(Ha & ts & Hts & Hnz & Hd & Hcl)].
    + left. now rewrite A, Ha.
    + rewrite Ha, Hts in A, S. cbn [orb negb andb] in A, S.
      destruct (Z.eqb_spec (stamp ts) 0) as [E|_]; [contradiction|].
      cbn [negb andb] in A, S. rewrite usub_true in A by lia.
      destruct (Z.leb_spec (hold B) (t - ts)); [left; exact A|].
      right. split; [exact A|]. exists ts. rewrite S. repeat split; auto; lia.
  - intros Hdl. destruct Hs as [Ha|(Ha & ts & Hts & Hnz & Hd & Hcl)].
    + now rewrite A, Ha.
    + rewrite Ha, Hts in A. cbn [orb negb andb] in A.
      destruct (Z.eqb_spec (stamp ts) 0) as [E|_]; [contradiction|].
      cbn [negb andb] in A. rewrite usub_true in A by lia.
      rewrite A. apply Z.leb_le. lia.
Qed.

Lemma armed_mono d d' s : d <= d' -> armed B d s -> armed B d' s.
Proof.
  intros Hd [Ha|(Ha & ts & Hts & Hnz & Hle & Hcl)]; [now left|].
  right. split; [exact Ha|]. exists ts. repeat split; auto; lia.
Qed.

Lemma staysWithin_cons i ins s :
  staysWithin K B (i :: ins) s ->
  within B (filteredVoltage (loopOf K (raw i) (elapse (lag i) s))) = true
  /\ staysWithin K B ins (loopOf K (raw i) (elapse (lag i) s)).
Proof.
  intros H. split.
  - apply (H [] i ins eq_refl).
  - intros p j q E. subst ins. apply (H (i :: p) j q eq_refl).
Qed.

Lemma run_armed d ins : forall s,
  Forall (fun i => 0 <= lag i <= 2 ^ 31) ins ->
  staysWithin K B ins s ->
  armed B d s ->
  armed B d (run (loopOf K) ins s)
  /\ clock s + pause K * Z.of_nat (length ins) <= clock (run (loopOf K) ins s).
Proof.
  induction ins as [|i ins IH]; intros s Hins Hin Hs.
  - split; [exact Hs|cbn; lia].
  - inversion Hins as [|? ? Hi Hins']; subst.
    destruct (staysWithin_cons i ins s Hin) as [Hv Hin'].
    destruct (loop_armed_keep d i s Hi Hs Hv) as (Hs' & Hc & _).
    destruct (IH _ Hins' Hin' Hs') as [Ha Hc'].
    cbn [run fold_left length]. split; [exact Ha|].
    fold (run (loopOf K) ins (loopOf K (raw i) (elapse (lag i) s))). lia.
Qed.

End Detection.

Lemma within_Qeq B v w : (v == w)%Q -> within B v = within B w.
Proof.
  intros E. unfold within, inBand, Float.ge, Float.le.
  f_equal; apply eq_true_iff_eq; rewrite !Qle_bool_iff; now rewrite E.
Qed.

Lemma run_app loop a b s : run loop (a ++ b) s = run loop b (run loop a s).
Proof. unfold run. apply fold_left_app. Qed.

Lemma buffer_sizes K : In K sketches -> 5 <= bufferSize K <= 10.
Proof.
  cbn [In sketches]. intros [<-|[<-|[]]]; cbn;
    unfold V1.numReadings, V2.NUM_READINGS; lia.
Qed.

Lemma run_latches K k B d ins : forall s,
  In K sketches -> order K !! k = Some B ->
  Forall (fun i => 0 <= lag i <= 2 ^ 31) ins ->
  staysWithin K B ins s ->
  armed B d s ->
  ins <> [] ->
  d + hold B <= clock s + pause K * (Z.of_nat (length ins) - 1) ->
  active B (run (loopOf K) ins s) = true.
Proof.
  induction ins as [|i ins IH]; intros s HK Hk Hins Hin Hs Hne Hd;
    [now elim Hne|].
  inversion Hins as [|? ? Hi Hins']; subst.
  destruct (staysWithin_cons K B i ins s Hin) as [Hv Hin'].
  destruct (loop_armed_keep K k B HK Hk d i s Hi Hs Hv) as (Hs' & Hc & Hl).
  cbn [run fold_left].
  fold (run (loopOf K) ins (loopOf K (raw i) (elapse (lag i) s))).
  destruct ins as [|j ins].
  - cbn [run fold_left]. apply Hl. cbn [length] in Hd. lia.
  - apply (IH _ HK Hk Hins' Hin' Hs'); [discriminate|].
    cbn [length] in Hd |- *. nia.
Qed.

Section HeldButton.

Variables (K : Sketch) (k : nat) (B : Band).
Variables (pre held : list Input) (sample : Z).
Hypothesis HK : In K sketches.
Hypothesis Hk : order K !! k = Some B.
Hypothesis Hins :
  Forall (fun i => 0 <= raw i <= ADC_MAX /\ 0 <= lag i <= 2 ^ 31) (pre ++ held).
Hypothesis Hsame : Forall (fun i => raw i = sample) held.
Hypothesis Hband : within B (toVolts sample) = true.

(** Once the last N samples are the held one, the filtered voltage is in
    the band. *)
Lemma inband_prefix a b :
  held = a ++ b -> bufferSize K <= Z.of_nat (length a) ->
  within B (filteredVoltage (run (loopOf K) (pre ++ a) (initOf K))) = true.
Proof.
  intros E Hlen.
  pose proof (buffer_sizes K HK) as HN.
  set (n := (length a - Z.to_nat (bufferSize K))%nat).
  rewrite <- (take_drop n a), app_assoc.
  rewrite (within_Qeq B _ (toVolts sample)); [exact Hband|].
  apply settles_exactly; [exact HK| | |].
  - rewrite <- app_assoc, take_drop.
    rewrite E, app_assoc in Hins. apply Forall_app in Hins as [Hins' _].
    eapply Forall_impl; [exact Hins'|]. now intros x [Hx _].
  - rewrite length_drop. subst n. lia.
  - rewrite E in Hsame. apply Forall_app in Hsame as [Ha _].
    now apply Forall_drop.
Qed.

Lemma lags_prefix a b :
  pre ++ held = a ++ b -> Forall (fun i => 0 <= lag i <= 2 ^ 31) a.
Proof.
  intros E. rewrite E in Hins. apply Forall_app in Hins as [Ha _].
  eapply Forall_impl; [exact Ha|]. now intros x [_ Hx].
Qed.

Lemma lags_suffix a b :
  pre ++ held = a ++ b -> Forall (fun i => 0 <= lag i <= 2 ^ 31) b.
Proof.
  intros E. rewrite E in Hins. apply Forall_app in Hins as [_ Hb].
  eapply Forall_impl; [exact Hb|]. now intros x [_ Hx].
Qed.

Lemma held_latches :
  hold B <= pause K * (Z.of_nat (length held) - bufferSize K - 1) ->
  active B (run (loopOf K) (pre ++ held) (initOf K)) = true.
Proof.
  intros Hlong.
  pose proof (buffer_sizes K HK) as HN.
  pose proof (hold_bounds B (order_lookup_in_bands K k B HK Hk)) as Hh.
  destruct (sketch_shape K HK) as [_ Hp].
  assert (HB : In B (order K)) by (apply list_elem_of_In; eapply list_elem_of_lookup_2; exact Hk).
  set (n := (Z.to_nat (bufferSize K) - 1)%nat).
  assert (Hlen : bufferSize K + 2 <= Z.of_nat (length held)) by nia.
  assert (E : held = take n held ++ drop n held) by (now rewrite take_drop).
  assert (Ln : length (take n held) = n) by (rewrite length_take; subst n; lia).
  assert (Ld : Z.of_nat (length (drop n held)) = Z.of_nat (length held) - bufferSize K + 1)
    by (rewrite length_drop; subst n; lia).
  set (a0 := take n held) in *.
  destruct (drop n held) as [|j [|r0 rest]] eqn:Ed;
    [cbn [length] in Ld; lia|cbn [length] in Ld; lia|].
  cbn [length] in Ld.
  set (s0 := run (loopOf K) (pre ++ a0) (initOf K)).
  set (s1 := loopOf K (raw j) (elapse (lag j) s0)).
  set (s2 := loopOf K (raw r0) (elapse (lag r0) s1)).
  assert (E1 : s1 = run (loopOf K) (pre ++ a0 ++ [j]) (initOf K))
    by (subst s1 s0; now rewrite app_assoc, run_snoc).
  assert (E2 : s2 = run (loopOf K) (pre ++ (a0 ++ [j]) ++ [r0]) (initOf K))
    by (subst s2; now rewrite E1, (app_assoc pre (a0 ++ [j]) [r0]), run_snoc).
  assert (Hall : pre ++ held = (pre ++ a0) ++ j :: r0 :: rest)
    by (now rewrite <- app_assoc, <- E).
  assert (T0 : entryTimed B 1000 s0).
  { apply (run_entryTimed K k B HK Hk); [exact (lags_prefix _ _ Hall)|].
    intros _ H0. elim H0. apply (init_idle K B HK HB). }
  pose proof (lags_suffix _ _ Hall) as Hl.
  apply Forall_cons in Hl as [Hj Hl1].
  apply Forall_cons in Hl1 as [Hr0 Hl2].
  assert (V1 : within B (filteredVoltage s1) = true).
  { rewrite E1. apply (inband_prefix (a0 ++ [j]) (r0 :: rest)).
    - now rewrite <- app_assoc.
    - rewrite length_app, Ln. cbn [length]. subst n. lia. }
  assert (V2 : within B (filteredVoltage s2) = true).
  { rewrite E2. apply (inband_prefix ((a0 ++ [j]) ++ [r0]) rest).
    - now rewrite <- !app_assoc.
    - rewrite !length_app, Ln. cbn [length]. subst n. lia. }
  assert (A2 : armed B (clock s2 - pause K) s2).
  { destruct (loop_inband_first K k B HK Hk j s0 Hj T0 V1)
      as [A1|(Ha & Hst & Hz)].
    - fold s1 in A1.
      destruct (loop_armed_keep K k B HK Hk _ r0 s1 Hr0 A1 V2) as (A & Hc & _).
      fold s2 in A, Hc. apply (armed_mono B (clock s1 - pause K)); [lia|exact A].
    - apply (loop_inband_second K k B HK Hk r0 s1 Hr0 Ha Hst Hz V2). }
  assert (R : run (loopOf K) (pre ++ held) (initOf K) = run (loopOf K) rest s2).
  { rewrite E2, <- run_app. f_equal. rewrite E. fold a0.
    now rewrite <- !app_assoc. }
  rewrite R.
  apply (run_latches K k B (clock s2 - pause K)); auto.
  - intros p i q Eq. rewrite E2, <- run_app.
    replace ((pre ++ (a0 ++ [j]) ++ [r0]) ++ p ++ [i])
      with (pre ++ (a0 ++ [j; r0] ++ p ++ [i])) by (now rewrite <- !app_assoc).
    apply (inband_prefix _ q).
    + rewrite E at 1. fold a0. rewrite Eq. now rewrite <- !app_assoc.
    + rewrite !length_app, Ln. cbn [length]. subst n. lia.
  - intros ->. cbn [length] in Ld. nia.
  - nia.
Qed.

End HeldButton.

(** X12. A button held long enough is detected.  Whatever happened before,
    if the sensor gives the same in-band sample for N + 1 + h iterations of
    [loop], where N is the size of the filter buffer and h iterations pause
    for at least the hold time of the band, then at the end of the run the
    band is latched and its pin is at its active level.  The clock may roll
    over during the run; iterations may start up to 2^31 ms late. *)
Theorem held_button_is_detected
    (K : Sketch) (k : nat) (B : Band) (pre held : list Input) (sample : Z) :
  In K sketches -> order K !! k = Some B ->
  Forall (fun i => 0 <= raw i <= ADC_MAX /\ 0 <= lag i <= 2 ^ 31) (pre ++ held) ->
  Forall (fun i => raw i = sample) held ->
  within B (toVolts sample) = true ->
  hold B <= pause K * (Z.of_nat (length held) - bufferSize K - 1) ->
  let s := run (loopOf K) (pre ++ held) (initOf K) in
  active B s = true
  /\ forall pin level, In (DigitalWrite pin level) (onLatch B) ->
       pinLevel pin (trace s) = Some level.
Proof.
  intros HK Hk Hins Hsame Hband Hlong. cbv zeta.
  pose proof (held_latches K k B pre held sample HK Hk Hins Hsame Hband Hlong)
    as Ha.
  split; [exact Ha|]. intros pin level Hpin.
  apply (run_tracks K B pin level (pre ++ held) HK); auto.
  apply list_elem_of_In. eapply list_elem_of_lookup_2. exact Hk.
Qed.

Lemma held_button_is_detected_witness :
  let s := run (loopOf sketch2)
             ([mkInput 7 1000] ++ replicate 36 (mkInput 1 384))
             (initOf sketch2) in
  active V2_NEXT s = true
  /\ forall pin level, In (DigitalWrite pin level) (onLatch V2_NEXT) ->
       pinLevel pin (trace s) = Some level.
Proof.
  apply (held_button_is_detected sketch2 2 V2_NEXT [mkInput 7 1000]
           (replicate 36 (mkInput 1 384)) 384).
  - cbn. tauto.
  - reflexivity.
  - apply Forall_app. split.
    + unfold ADC_MAX. repeat constructor; cbn; lia.
    + apply Forall_replicate. unfold ADC_MAX. cbn. lia.
  - apply Forall_replicate. reflexivity.
  - vm_compute. reflexivity.
  - vm_compute. discriminate.
Defined.

(** ** A released button is released *)

Lemma settles_after K pre tail sample :
  In K sketches ->
  Forall (fun i => 0 <= raw i <= ADC_MAX) (pre ++ tail) ->
  bufferSize K <= Z.of_nat (length tail) ->
  Forall (fun i => raw i = sample) tail ->
  (filteredVoltage (run (loopOf K) (pre ++ tail) (initOf K)) == toVolts sample)%Q.
Proof.
  intros HK Hins Hlen Hsame.
  pose proof (buffer_sizes K HK) as HN.
  set (n := (length tail - Z.to_nat (bufferSize K))%nat).
  rewrite <- (take_drop n tail), app_assoc.
  apply settles_exactly; [exact HK| | |].
  - now rewrite <- app_assoc, take_drop.
  - rewrite length_drop. subst n. lia.
  - now apply Forall_drop.
Qed.

(** X13. A released button is released.  Whatever happened before, once
    the last N samples of a run (or more) are the same sample and its
    voltage is outside the band, the band is idle at the end of the run:
    its flag is clear, its timer is 0 and its pin is not at its active
    level. *)
Theorem released_button_goes_idle
    (K : Sketch) (k : nat) (B : Band) (pre tail : list Input) (sample : Z) :
  In K sketches -> order K !! k = Some B ->
  Forall (fun i => 0 <= raw i <= ADC_MAX) (pre ++ tail) ->
  bufferSize K <= Z.of_nat (length tail) ->
  Forall (fun i => raw i = sample) tail ->
  within B (toVolts sample) = false ->
  let s := run (loopOf K) (pre ++ tail) (initOf K) in
  Idle B s
  /\ forall pin level, In (DigitalWrite pin level) (onLatch B) ->
       pinLevel pin (trace s) <> Some level.
Proof.
  intros HK Hk Hins Hlen Hsame Hout. cbv zeta.
  pose proof (buffer_sizes K HK) as HN.
  pose proof (settles_after K pre tail sample HK Hins Hlen Hsame) as Hv.
  apply (within_Qeq B) in Hv. rewrite Hout in Hv.
  assert (HI : Idle B (run (loopOf K) (pre ++ tail) (initOf K))).
  { destruct (exists_last (l := pre ++ tail)) as (l & j & E).
    - intros E. apply (f_equal (@length _)) in E.
      rewrite length_app in E. cbn in E. lia.
    - rewrite E in Hv |- *. rewrite run_snoc in Hv |- *.
      destruct (iteration_summary K k B j (run (loopOf K) l (initOf K)) HK Hk)
        as (t & _ & _ & A & S).
      rewrite Hv in A, S. split; assumption. }
  split; [exact HI|]. intros pin level Hpin Hl.
  apply (run_tracks K B pin level (pre ++ tail) HK) in Hl; auto.
  - destruct HI as [Ha _]. congruence.
  - apply list_elem_of_In. eapply list_elem_of_lookup_2. exact Hk.
Qed.

Lemma released_button_goes_idle_witness :
  let s := run (loopOf sketch1)
             ([mkInput 3 780] ++ replicate 10 (mkInput 1 0))
             (initOf sketch1) in
  Idle V1_MUTE s
  /\ forall pin level, In (DigitalWrite pin level) (onLatch V1_MUTE) ->
       pinLevel pin (trace s) <> Some level.
Proof.
  apply (released_button_goes_idle sketch1 0 V1_MUTE [mkInput 3 780]
           (replicate 10 (mkInput 1 0)) 0).
  - cbn. tauto.
  - reflexivity.
  - apply Forall_app. split.
    + unfold ADC_MAX. repeat constructor; cbn; lia.
    + apply Forall_replicate. unfold ADC_MAX. cbn. lia.
  - vm_compute. discriminate.
  - apply Forall_replicate. reflexivity.
  - vm_compute. reflexivity.
Defined.
